(** * niftynet.io.image_reader: the manifest merge, the field resolution,
      the volume catalog and the reader's two access modes.

    The development follows [niftynet/io/image_reader.py].  Python
    exceptions are values of [result]; methods of [ImageReader] are
    computations over the reader object which keep the object as it was
    left when an exception escapes. *)

From Stdlib Require Import String Ascii List ZArith Lia Bool PeanoNat.
From Stdlib Require Import Permutation.
Import ListNotations.
Local Open Scope string_scope.
Local Open Scope list_scope.

(** ** Exceptions and fatal log records *)

(** The exception classes the module can let escape. *)
Inductive exn : Type :=
| IOError
| KeyError
| RuntimeError
| UnboundLocalError
| AttributeError
| TypeError
| ValueError
| IndexError.

(** The messages handed to [tf.logging.fatal] just before a raise. *)
Inductive fatal : Type :=
| csv_file_not_found (csv_file : string)
| no_common_subject_ids
| modality_names_not_found
| please_initialise_the_reader_first.

(** What the caller observes of a failed call: the fatal record that was
    logged (if any) and the exception that escaped. *)
Record failure : Type := Failure { logged : option fatal; raised : exn }.

Inductive result (A : Type) : Type :=
| Ok (a : A)
| Err (f : failure).
Arguments Ok {A} a.
Arguments Err {A} f.

Definition raise {A : Type} (e : exn) : result A := Err (Failure None e).
Definition fatal_raise {A : Type} (m : fatal) (e : exn) : result A :=
  Err (Failure (Some m) e).

(** The conditions of the error taxonomy, as the code signals them. *)
Definition ManifestNotFound (csv_file : string) : failure :=
  Failure (Some (csv_file_not_found csv_file)) IOError.
Definition EmptyManifest : failure := Failure (Some no_common_subject_ids) IOError.
Definition UnknownModality : failure := Failure (Some modality_names_not_found) KeyError.
Definition ReaderNotInitialized : failure :=
  Failure (Some please_initialise_the_reader_first) RuntimeError.
(** Nothing in the module logs or raises for an unknown application; the
    only failure there is the unbound local [SUPPORTED_INPUT]. *)
Definition UnsupportedApplication : failure := Failure None UnboundLocalError.

Definition rbind {A B : Type} (r : result A) (k : A -> result B) : result B :=
  match r with
  | Ok a => k a
  | Err f => Err f
  end.

Declare Scope result_scope.
Delimit Scope result_scope with result.
Notation "x <- r ;; k" := (rbind r (fun x => k))
  (at level 61, r at next level, right associativity) : result_scope.

(** A list comprehension whose element expression may raise: elements are
    evaluated left to right and the first exception escapes. *)
Fixpoint list_comp {A B : Type} (f : A -> result B) (l : list A)
  : result (list B) :=
  match l with
  | [] => Ok []
  | x :: l' =>
      match f x with
      | Err e => Err e
      | Ok y =>
          match list_comp f l' with
          | Err e => Err e
          | Ok ys => Ok (y :: ys)
          end
      end
  end.

(** ** Python dictionaries with string keys

    A dict is kept as an association list in iteration order; a
    well-formed dict has no repeated key. *)
Definition dict (V : Type) : Type := list (string * V).

Definition keys {V : Type} (d : dict V) : list string := map fst d.

Fixpoint dict_get {V : Type} (d : dict V) (k : string) : option V :=
  match d with
  | [] => None
  | (k', v) :: d' => if String.eqb k' k then Some v else dict_get d' k
  end.

(** [d[k] = v]: overwrite in place, or append a new key. *)
Fixpoint dict_set {V : Type} (d : dict V) (k : string) (v : V) : dict V :=
  match d with
  | [] => [(k, v)]
  | (k', v') :: d' =>
      if String.eqb k' k then (k', v) :: d' else (k', v') :: dict_set d' k v
  end.

(** The pairs of [l] stored one after the other into [acc]. *)
Definition dict_fold {V : Type} (acc : dict V) (l : list (string * V))
  : dict V :=
  fold_left (fun d kv => dict_set d (fst kv) (snd kv)) l acc.

(** [{k: v for ...}] from the pairs in evaluation order. *)
Definition dict_of_pairs {V : Type} (l : list (string * V)) : dict V :=
  dict_fold [] l.

(** [d[k]], raising [KeyError] on an absent key. *)
Definition dict_item {V : Type} (d : dict V) (k : string) : result V :=
  match dict_get d k with
  | Some v => Ok v
  | None => raise KeyError
  end.

Definition well_formed_dict {V : Type} (d : dict V) : Prop := NoDup (keys d).

(** [x in t] for a tuple of strings. *)
Definition str_in (x : string) (t : list string) : bool :=
  existsb (String.eqb x) t.

(** ** Values held by [task_param]

    [task_param['name']] is a string; the field entries are tuples of
    modality names. *)
Inductive pyval : Type :=
| PStr (s : string)
| PTuple (t : list string).

(** [v != ()] *)
Definition ne_empty_tuple (v : pyval) : bool :=
  match v with
  | PTuple [] => false
  | _ => true
  end.

(** [v == s] for a string literal [s]. *)
Definition eq_str (v : pyval) (s : string) : bool :=
  match v with
  | PStr s' => String.eqb s' s
  | PTuple _ => false
  end.

(** [for mod in v]: a tuple yields its items, a string its characters. *)
Definition py_iter (v : pyval) : list string :=
  match v with
  | PTuple t => t
  | PStr s => map (fun c => String c EmptyString) (list_ascii_of_string s)
  end.

(** ** The pandas tables the merger handles

    How [read_csv] types the key column of a file: as numbers (int64,
    float64) or as objects (text). *)
Inductive key_dtype : Type := numeric_key | object_key.

Definition key_dtype_eqb (a b : key_dtype) : bool :=
  match a, b with
  | numeric_key, numeric_key => true
  | object_key, object_key => true
  | _, _ => false
  end.

(** Every table of this module has the key column ['subject_id'] first,
    of type [subject_id_dtype]; [columns] lists the labels after it and
    each row carries the key and one cell per label.  Keys and cells are
    held as pandas parsed them, a key in the one written form of its
    value, so that two keys of a type are equal exactly when they read
    the same.  Row labels are the positions 0..n-1 (the default index of
    [read_csv] and of [merge]). *)
Record DataFrame : Type := mkDataFrame {
  subject_id_dtype : key_dtype;
  columns : list string;
  rows : list (string * list string)
}.

(** [df.shape[0]] and [df.shape[1]] *)
Definition n_rows (df : DataFrame) : nat := length (rows df).
(** [df.size]: number of rows times number of columns. *)
Definition df_size (df : DataFrame) : nat :=
  length (rows df) * S (length (columns df)).
(** [len(df)] *)
Definition df_len (df : DataFrame) : nat := length (rows df).

(** The subject identifiers of a table, in row order. *)
Definition subject_ids (df : DataFrame) : list string := map fst (rows df).

(** The distinct elements of a list, in the order they are first met. *)
Fixpoint first_seen_from (seen l : list string) : list string :=
  match l with
  | [] => []
  | x :: l' =>
      if str_in x seen then first_seen_from seen l'
      else x :: first_seen_from (x :: seen) l'
  end.
Definition first_seen (l : list string) : list string := first_seen_from [] l.

(** The rows of the inner join: key by key, in the order the keys are
    first met on the left, every left row of the key, in order, is paired
    with each right row of the key, in order. *)
Definition join_rows (left right : list (string * list string))
  : list (string * list string) :=
  flat_map
    (fun k =>
       flat_map
         (fun l =>
            map (fun r => (k, snd l ++ snd r))
                (filter (fun r => String.eqb (fst r) k) right))
         (filter (fun l => String.eqb (fst l) k) left))
    (first_seen (map fst left)).

(** Whether pandas refuses to merge on the two key columns: both hold
    keys, and one is numeric while the other is text. *)
Definition keys_incompatible (left right : DataFrame) : bool :=
  match rows left, rows right with
  | _ :: _, _ :: _ =>
      negb (key_dtype_eqb (subject_id_dtype left) (subject_id_dtype right))
  | _, _ => false
  end.

(** [pandas.merge(left, right, on='subject_id')]: the inner join, or a
    [ValueError] for key columns that cannot be merged.  The key column
    of the result is typed as on the left, which matters only while
    both sides hold keys.  (Label clashes between non-key columns, which
    pandas renames, cannot arise between the distinct keys of one
    [data_param].) *)
Definition pandas_merge (left right : DataFrame) : result DataFrame :=
  if keys_incompatible left right then raise ValueError
  else
    Ok {| subject_id_dtype := subject_id_dtype left;
          columns := columns left ++ columns right;
          rows := join_rows (rows left) (rows right) |}.

Fixpoint index_of (x : string) (l : list string) : option nat :=
  match l with
  | [] => None
  | y :: l' =>
      if String.eqb y x then Some 0
      else option_map S (index_of x l')
  end.

(** [df.loc[idx, col]]: [KeyError] when the row label or the column label
    is not in the table. *)
Definition df_loc (df : DataFrame) (idx : nat) (col : string) : result string :=
  match nth_error (rows df) idx with
  | None => raise KeyError
  | Some (sid, cells) =>
      if String.eqb col "subject_id" then Ok sid
      else
        match index_of col (columns df) with
        | None => raise KeyError
        | Some j =>
            match nth_error cells j with
            | Some c => Ok c
            | None => raise KeyError
            end
        end
  end.

(** ** The tensor types numpy element types map to *)

Inductive tf_dtype : Type := tf_int32 | tf_float32.

Fixpoint ascii_get {V : Type} (d : list (ascii * V)) (k : ascii) : option V :=
  match d with
  | [] => None
  | (k', v) :: d' => if Ascii.eqb k' k then Some v else ascii_get d' k
  end.

Definition NP_TF_DTYPES : list (ascii * tf_dtype) :=
  [("i"%char, tf_int32); ("u"%char, tf_int32);
   ("b"%char, tf_int32); ("f"%char, tf_float32)].

(** [np.random.randint(high)]: a draw from [0, high); [ValueError] when
    the range is empty.  The generator's entropy is the explicit argument
    [rnd]; every value of the range is the outcome of some [rnd]. *)
Definition np_random_randint (rnd : Z) (high : Z) : result Z :=
  if (high <=? 0)%Z then raise ValueError else Ok (rnd mod high)%Z.

(** [l[idx]] on a list, with Python's negative indices. *)
Definition py_getitem {A : Type} (l : list A) (idx : Z) : result A :=
  let n := Z.of_nat (length l) in
  let pos := if (idx <? 0)%Z then (idx + n)%Z else idx in
  if ((0 <=? pos) && (pos <? n))%Z then
    match nth_error l (Z.to_nat pos) with
    | Some x => Ok x
    | None => raise IndexError
    end
  else raise IndexError.

(** Truth value of an attribute that is [None], or a list/tuple/dict. *)
Definition truthy {A : Type} (o : option (list A)) : bool :=
  match o with
  | Some (_ :: _) => true
  | _ => false
  end.

(** ** External collaborators

    What the module imports and does not define: the image objects of
    [niftynet.io.input_type], the file system and the csv parser, the
    applications' [SUPPORTED_INPUT] constants and [make_input_tuple]. *)
Class ExternalTypes : Type := {
  np_dtype : Type;  (* numpy's dtype objects *)
  Image : Type;   (* what ImageFactory.create_instance returns *)
  Data : Type;    (* what image.get_data() returns *)
  Pixdim : Type;  (* a modality's target voxel spacing *)
  Axcodes : Type  (* a modality's target axis codes *)
}.

(** One input section of [data_param]. *)
Record ModalityParam `{ExternalTypes} : Type := mkModalityParam {
  csv_file : string;
  interp_order : Z;
  pixdim : Pixdim;
  axcodes : Axcodes
}.

(** The keyword arguments of [ImageFactory.create_instance]. *)
Record image_properties `{ExternalTypes} : Type := mk_image_properties {
  ip_file_path : list string;
  ip_name : pyval;
  ip_interp_order : list Z;
  ip_output_pixdim : list Pixdim;
  ip_output_axcodes : list Axcodes
}.

Class External `{ExternalTypes} : Type := {
  (* os.path.isfile *)
  isfile : string -> bool;
  (* the (subject_id, path) records pandas.read_csv parses from a file,
     the key as pandas holds it once the column is typed *)
  csv_records : string -> list (string * string);
  (* the type pandas.read_csv gives the first column of the file *)
  csv_key_dtype : string -> key_dtype;
  (* niftynet.application.segmentation_application.SUPPORTED_INPUT *)
  SUPPORTED_INPUT_segmentation : list string;
  (* niftynet.application.gan_application.SUPPORTED_INPUT *)
  SUPPORTED_INPUT_gan : list string;
  (* niftynet.utilities.user_parameters_helper.make_input_tuple at
     element type basestring: a sequence of strings comes back as the
     tuple of the same strings *)
  make_input_tuple : list string -> list string;
  make_input_tuple_seq : forall t, make_input_tuple t = t;
  (* niftynet.io.input_type.ImageFactory.create_instance *)
  create_instance : image_properties -> Image;
  (* image.get_data() *)
  get_data : Image -> Data;
  (* image.get_data().shape *)
  data_shape : Data -> list nat;
  (* image.dtype *)
  image_dtype : Image -> list np_dtype;
  (* dtype.kind *)
  kind : np_dtype -> ascii;
  (* numpy's equality of dtypes, by which set() tells them apart: two
     dtypes are one value here exactly when numpy holds them equal *)
  np_dtype_eqb : np_dtype -> np_dtype -> bool;
  np_dtype_eqb_eq : forall a b, np_dtype_eqb a b = true <-> a = b
}.

Section Reader.
Context {Types : ExternalTypes} {Ext : External}.

(** [pandas.read_csv(csv_file, header=None, names=['subject_id',
    modality_name])]: one row per record of the file, none for a file
    without records; pandas refuses a repeated column name. *)
Definition pandas_read_csv (csv_file : string) (modality_name : string)
  : result DataFrame :=
  if String.eqb modality_name "subject_id" then raise ValueError
  else
    Ok {| subject_id_dtype := csv_key_dtype csv_file;
          columns := [modality_name];
          rows := map (fun rec => (fst rec, [snd rec])) (csv_records csv_file) |}.

(** The records of a modality's manifest, as [data_param] locates it. *)
Definition manifest_of (data_param : dict ModalityParam)
           (modality_name : string) : list (string * string) :=
  match dict_get data_param modality_name with
  | Some section => csv_records (csv_file section)
  | None => []
  end.

(** [set(seq)] on dtypes, keeping one representative of each. *)
Fixpoint py_set (l : list np_dtype) : list np_dtype :=
  match l with
  | [] => []
  | d :: l' =>
      if existsb (np_dtype_eqb d) l' then py_set l' else d :: py_set l'
  end.

(** The type of the key column of a modality's manifest. *)
Definition manifest_dtype (data_param : dict ModalityParam)
           (modality_name : string) : key_dtype :=
  match dict_get data_param modality_name with
  | Some section => csv_key_dtype (csv_file section)
  | None => object_key
  end.

(** ** [infer_tf_dtypes] *)
Definition infer_tf_dtypes (image_object : Image) : result (option tf_dtype) :=
  let uniq_np_dtype := py_set (image_dtype image_object) in
  if (1 <? length uniq_np_dtype)%nat then
    (* heterogeneous input data types, promoting to floatings *)
    Ok (ascii_get NP_TF_DTYPES "f"%char)
  else
    match uniq_np_dtype with
    | [] => raise KeyError              (* pop from an empty set *)
    | d :: _ => Ok (ascii_get NP_TF_DTYPES (kind d))
    end.

(** ** The reader object *)
Record ImageReader : Type := mkImageReader {
  _file_list : option DataFrame;
  _output_fields : list string;
  _input_sources : option (dict pyval);
  _shapes : option (dict (list nat));
  _dtypes : option (dict (option tf_dtype));
  output_list : option (list (dict Image));
  current_id : option Z
}.

Definition set_file_list (self : ImageReader) v :=
  mkImageReader v (_output_fields self) (_input_sources self) (_shapes self)
                (_dtypes self) (output_list self) (current_id self).
(** The [output_fields] setter. *)
Definition set_output_fields (self : ImageReader) fields_tuple :=
  mkImageReader (_file_list self) (make_input_tuple fields_tuple)
                (_input_sources self) (_shapes self)
                (_dtypes self) (output_list self) (current_id self).
Definition set_input_sources (self : ImageReader) v :=
  mkImageReader (_file_list self) (_output_fields self) v (_shapes self)
                (_dtypes self) (output_list self) (current_id self).
Definition set_shapes (self : ImageReader) v :=
  mkImageReader (_file_list self) (_output_fields self) (_input_sources self) v
                (_dtypes self) (output_list self) (current_id self).
Definition set_dtypes (self : ImageReader) v :=
  mkImageReader (_file_list self) (_output_fields self) (_input_sources self)
                (_shapes self) v (output_list self) (current_id self).
Definition set_output_list (self : ImageReader) v :=
  mkImageReader (_file_list self) (_output_fields self) (_input_sources self)
                (_shapes self) (_dtypes self) v (current_id self).
Definition set_current_id (self : ImageReader) v :=
  mkImageReader (_file_list self) (_output_fields self) (_input_sources self)
                (_shapes self) (_dtypes self) (output_list self) v.

(** [ImageReader(output_fields)] *)
Definition ImageReader_init (output_fields : list string) : ImageReader :=
  set_output_fields
    (mkImageReader None [] None None None None None) output_fields.

(** A method call: the value returned or the exception raised, and the
    object as the call left it. *)
Definition M (A : Type) : Type := ImageReader -> result A * ImageReader.

Definition ret {A : Type} (a : A) : M A := fun self => (Ok a, self).
Definition throw {A : Type} (f : failure) : M A := fun self => (Err f, self).
Definition lift {A : Type} (x : result A) : M A := fun self => (x, self).
Definition bind {A B : Type} (m : M A) (k : A -> M B) : M B :=
  fun self =>
    match m self with
    | (Ok a, self') => k a self'
    | (Err f, self') => (Err f, self')
    end.
Definition get : M ImageReader := fun self => (Ok self, self).
Definition modify (f : ImageReader -> ImageReader) : M unit :=
  fun self => (Ok tt, f self).

Declare Scope reader_scope.
Delimit Scope reader_scope with reader.
Notation "x <- m ;; k" := (bind m (fun x => k))
  (at level 61, m at next level, right associativity) : reader_scope.
Notation "m ;;; k" := (bind m (fun _ => k))
  (at level 61, right associativity) : reader_scope.

(** [{key: f(key) for key in ks}] with a value expression that may raise. *)
Definition dict_comp {V : Type} (f : string -> result V) (ks : list string)
  : result (dict V) :=
  (kvs <- list_comp (fun k => v <- f k ;; Ok (k, v)) ks ;;
   Ok (dict_of_pairs kvs))%result.

(** The [input_sources] property. *)
Definition input_sources (self : ImageReader) : result (dict pyval) :=
  match _input_sources self with
  | Some (e :: d) => Ok (e :: d)
  | _ => Err ReaderNotInitialized
  end.

(** The [shapes] property. *)
Definition shapes : M (dict (list nat)) := fun self =>
  match output_list self with
  | Some (random_image :: _) =>
      match _shapes self with
      | Some (e :: d) => (Ok (e :: d), self)
      | _ =>
          match dict_comp
                  (fun field =>
                     (image <- dict_item random_image field ;;
                      Ok (data_shape (get_data image)))%result)
                  (_output_fields self) with
          | Err f => (Err f, self)
          | Ok d => (Ok d, set_shapes self (Some d))
          end
      end
  | _ => (Err ReaderNotInitialized, self)
  end.

(** The [dtypes] property. *)
Definition dtypes : M (dict (option tf_dtype)) := fun self =>
  match output_list self with
  | Some (random_image :: _) =>
      match _dtypes self with
      | Some (e :: d) => (Ok (e :: d), self)
      | _ =>
          match dict_comp
                  (fun field =>
                     (image <- dict_item random_image field ;;
                      infer_tf_dtypes image)%result)
                  (_output_fields self) with
          | Err f => (Err f, self)
          | Ok d => (Ok d, set_dtypes self (Some d))
          end
      end
  | _ => (Err ReaderNotInitialized, self)
  end.

(** ** [_load_and_merge_csv_files] *)

(** One turn of the loop up to [read_csv]: the section's manifest is
    located, checked and parsed. *)
Definition load_csv_list (data_param : dict ModalityParam)
           (modality_name : string) : result DataFrame :=
  match dict_get data_param modality_name with
  | None => raise AttributeError   (* ''.csv_file *)
  | Some section =>
      if negb (isfile (csv_file section)) then
        Err (ManifestNotFound (csv_file section))
      else pandas_read_csv (csv_file section) modality_name
  end.

(** The loop over the modality names; [_file_list] is the table merged so
    far.  (The warning on a shrinking row count is only logged.) *)
Fixpoint merge_csv_files (data_param : dict ModalityParam)
         (modality_names : list string) (_file_list : option DataFrame)
  : result (option DataFrame) :=
  match modality_names with
  | [] => Ok _file_list
  | modality_name :: rest =>
      match load_csv_list data_param modality_name with
      | Err f => Err f
      | Ok csv_list =>
          match _file_list with
          | None => merge_csv_files data_param rest (Some csv_list)
          | Some merged =>
              (* merge _file_list based on subject_ids *)
              match pandas_merge merged csv_list with
              | Err f => Err f
              | Ok joined_list =>
                  merge_csv_files data_param rest (Some joined_list)
              end
          end
      end
  end.

Definition _load_and_merge_csv_files (data_param : dict ModalityParam)
  : result DataFrame :=
  match merge_csv_files data_param (keys data_param) None with
  | Err f => Err f
  | Ok None => raise AttributeError   (* None.size *)
  | Ok (Some _file_list) =>
      if Nat.eqb (df_size _file_list) 0 then Err EmptyManifest
      else Ok _file_list
  end.

(** ** [_create_image] *)

(** The body of the [try]: the four tuples, built one after the other. *)
Definition image_tuples (self : ImageReader) (idx : nat) (modalities : pyval)
           (data_param : dict ModalityParam)
  : result (list string * list Z * list Pixdim * list Axcodes) :=
  (file_path <-
     list_comp (fun mod_ =>
                  match _file_list self with
                  | None => raise AttributeError   (* None.loc *)
                  | Some fl => df_loc fl idx mod_
                  end)
               (py_iter modalities) ;;
   interp_orders <-
     list_comp (fun mod_ => section <- dict_item data_param mod_ ;;
                           Ok (interp_order section))
               (py_iter modalities) ;;
   output_pixdim <-
     list_comp (fun mod_ => section <- dict_item data_param mod_ ;;
                           Ok (pixdim section))
               (py_iter modalities) ;;
   output_axcodes <-
     list_comp (fun mod_ => section <- dict_item data_param mod_ ;;
                           Ok (axcodes section))
               (py_iter modalities) ;;
   Ok (file_path, interp_orders, output_pixdim, output_axcodes))%result.

Definition _create_image (self : ImageReader) (idx : nat) (modalities : pyval)
           (data_param : dict ModalityParam) : result Image :=
  match image_tuples self idx modalities data_param with
  | Err f =>
      match raised f with
      | KeyError => Err UnknownModality   (* except KeyError: log, raise *)
      | _ => Err f
      end
  | Ok (file_path, interp_orders, output_pixdim, output_axcodes) =>
      Ok (create_instance
            {| ip_file_path := file_path;
               ip_name := modalities;
               ip_interp_order := interp_orders;
               ip_output_pixdim := output_pixdim;
               ip_output_axcodes := output_axcodes |})
  end.

(** ** [_filename_to_image_list] *)

(** The dictionary built for one row. *)
Definition row_dict (self : ImageReader) (row_id : nat)
           (data_param : dict ModalityParam) : result (dict Image) :=
  (fields <- input_sources self ;;
   dict_comp
     (fun field =>
        sources <- input_sources self ;;
        modalities <- dict_item sources field ;;
        _create_image self row_id modalities data_param)
     (keys fields))%result.

Definition _filename_to_image_list (self : ImageReader)
           (data_param : dict ModalityParam) : result (list (dict Image)) :=
  match _file_list self with
  | None => raise TypeError   (* len(None) *)
  | Some fl =>
      list_comp (fun row_id => row_dict self row_id data_param)
                (seq 0 (df_len fl))
  end.

(** ** [initialise_reader] *)

(** The binding of the local [SUPPORTED_INPUT] after the two imports;
    [None] is the unbound local. *)
Definition supported_input (app_type : pyval) : option (list string) :=
  if eq_str app_type "net_segmentation.py" then
    Some SUPPORTED_INPUT_segmentation
  else if eq_str app_type "net_gan.py" then
    Some SUPPORTED_INPUT_gan
  else None.

(** The list comprehension of line 104 over the keys of [task_param]. *)
Definition chosen_fields (task_param : dict pyval) (output_fields : list string)
  : list string :=
  filter (fun field_name =>
            str_in field_name output_fields &&
            match dict_get task_param field_name with
            | Some v => ne_empty_tuple v
            | None => false   (* not met: field_name is a key *)
            end)
         (keys task_param).

Local Open Scope reader_scope.

Definition initialise_reader (data_param : dict ModalityParam)
           (task_param : dict pyval) : M unit :=
  app_type <- lift (dict_item task_param "name") ;;
  fl <- lift (_load_and_merge_csv_files data_param) ;;
  modify (fun self => set_file_list self (Some fl)) ;;;
  self <- get ;;
  (match _output_fields self with
   | [] =>
       match supported_input app_type with
       | None => throw UnsupportedApplication
       | Some SUPPORTED_INPUT =>
           modify (fun self => set_output_fields self SUPPORTED_INPUT)
       end
   | _ :: _ => ret tt
   end) ;;;
  self <- get ;;
  modify (fun self' =>
            set_output_fields self'
              (chosen_fields task_param (_output_fields self))) ;;;
  self <- get ;;
  sources <- lift (dict_comp (fun field => dict_item task_param field)
                             (_output_fields self)) ;;
  modify (fun self => set_input_sources self (Some sources)) ;;;
  self <- get ;;
  volume_list <- lift (_filename_to_image_list self data_param) ;;
  modify (fun self => set_output_list self (Some volume_list)) ;;;
  modify (fun self => set_current_id self (Some (-1)%Z)) ;;;
  self <- get ;;
  _ <- lift (input_sources self) ;;   (* formatted into the info line *)
  ret tt.

(** ** [layer_op] *)

(** [{field: image.get_data() for field, image in output_image.items()}] *)
Definition image_data_dict (output_image : dict Image) : dict Data :=
  dict_of_pairs (map (fun fi => (fst fi, get_data (snd fi))) output_image).

(** The selection of [idx] and [output_image]: the two branches of
    [if shuffle]. *)
Definition select (rnd : Z) (shuffle : bool) : M (Z * option (dict Image)) :=
  if shuffle then
    (* this is thread safe, don't access self.current_id *)
    self <- get ;;
    match output_list self with
    | None => lift (raise TypeError)   (* len(None) *)
    | Some volume_list =>
        idx <- lift (np_random_randint rnd (Z.of_nat (length volume_list))) ;;
        output_image <- lift (py_getitem volume_list idx) ;;
        ret (idx, Some output_image)
    end
  else
    (* this is not thread safe *)
    self <- get ;;
    match current_id self with
    | None => lift (raise TypeError)   (* None + 1 *)
    | Some current =>
        let idx := (current + 1)%Z in
        modify (fun self => set_current_id self (Some idx)) ;;;
        self <- get ;;
        if (0 <=? idx)%Z then
          match output_list self with
          | None => lift (raise TypeError)   (* len(None) *)
          | Some volume_list =>
              if (idx <? Z.of_nat (length volume_list))%Z then
                output_image <- lift (py_getitem volume_list idx) ;;
                ret (idx, Some output_image)
              else ret (idx, None)
          end
        else ret (idx, None)
    end.

Definition layer_op (rnd : Z) (shuffle : bool)
  : M (option Z * option (dict Data)) :=
  sel <- select rnd shuffle ;;
  match sel with
  | (idx, Some (e :: output_image)) =>
      ret (Some idx, Some (image_data_dict (e :: output_image)))
  | _ => ret (None, None)
  end.

Local Close Scope reader_scope.

End Reader.

(** ** Notions the statements below are phrased with *)

(** The subject identifiers found in every one of the tables, in the
    order of the first table. *)
Definition common_subject_ids (tables : list (list (string * string)))
  : list string :=
  match tables with
  | [] => []
  | first :: others =>
      filter (fun s => forallb (fun t => str_in s (map fst t)) others)
             (map fst first)
  end.

Section Notions.
Context {Types : ExternalTypes} {Ext : External}.

(** A table joined over the modalities [names]: its labels are [names],
    none of them the key's, and the cells of a row are, label by label,
    paths which that modality's manifest lists for the row's subject. *)
Definition joined (data_param : dict ModalityParam) (names : list string)
           (df : DataFrame) : Prop :=
  columns df = names /\
  Forall (fun m => m <> "subject_id") names /\
  Forall (fun row =>
            Forall2 (fun m cell => In (fst row, cell) (manifest_of data_param m))
                    names (snd row))
         (rows df).

(** The manifests have key columns of one type. *)
Definition keys_typed_alike (data_param : dict ModalityParam) : Prop :=
  forall m m', In m (keys data_param) -> In m' (keys data_param) ->
               manifest_dtype data_param m = manifest_dtype data_param m'.

(** The list the fields of [task_param] are chosen against at line 104:
    the reader's own output fields when it has some, otherwise the
    application's [SUPPORTED_INPUT]; [None] when that local is unbound. *)
Definition candidate_fields (app_type : pyval) (self : ImageReader)
  : option (list string) :=
  match _output_fields self with
  | [] => supported_input app_type
  | fields => Some fields
  end.

(** The reader after one sequential call per listed entropy value. *)
Definition after_sequential_calls (rnds : list Z) (self : ImageReader)
  : ImageReader :=
  fold_left (fun reader rnd => snd (layer_op rnd false reader)) rnds self.

(** The states a reader goes through once an initialisation has
    succeeded: whatever is called on it afterwards, and however the call
    ends. *)
Inductive initialised : ImageReader -> Prop :=
| initialised_by data_param task_param self self' :
    initialise_reader data_param task_param self = (Ok tt, self') ->
    initialised self'
| initialised_again data_param task_param self :
    initialised self ->
    initialised (snd (initialise_reader data_param task_param self))
| initialised_layer_op rnd shuffle self :
    initialised self -> initialised (snd (layer_op rnd shuffle self))
| initialised_shapes self :
    initialised self -> initialised (snd (shapes self))
| initialised_dtypes self :
    initialised self -> initialised (snd (dtypes self)).

(** What every initialised reader holds: a catalog of at least one
    entry, every entry a dict with at least one field, and a cursor. *)
Definition catalog_built (self : ImageReader) : Prop :=
  exists volume_list current,
    output_list self = Some volume_list /\
    volume_list <> [] /\
    Forall (fun entry => entry <> [] /\ well_formed_dict entry) volume_list /\
    current_id self = Some current.

End Notions.

Section CallsAndCounts.
Context {Types : ExternalTypes} {Ext : External}.

(** The reader after a sequence of calls of [layer_op], each given by
    its entropy value and its [shuffle] flag. *)
Definition after_calls (calls : list (Z * bool)) (self : ImageReader)
  : ImageReader :=
  fold_left (fun reader call => snd (layer_op (fst call) (snd call) reader))
            calls self.

(** How many of the calls are sequential ones. *)
Definition sequential_count (calls : list (Z * bool)) : nat :=
  length (filter (fun call => negb (snd call)) calls).

(** How often a manifest lists a subject. *)
Definition listed (data_param : dict ModalityParam) (modality_name : string)
           (s : string) : nat :=
  count_occ string_dec (map fst (manifest_of data_param modality_name)) s.

(** The product, over the modalities, of how often each manifest lists
    the subject. *)
Definition rows_per_subject (data_param : dict ModalityParam) (s : string)
  : nat :=
  fold_right (fun m acc => listed data_param m s * acc) 1 (keys data_param).

End CallsAndCounts.

(** ** A small configuration to run the definitions on

    Two modalities over the manifests of the specification's example:
    [A.csv] lists s1 and s2, [B.csv] lists s1 and s3, [C.csv] lists s9. *)
Module Sample.

(** The element types of the sample: kind, item size and byte order. *)
Record sample_dtype : Type :=
  mk_sample_dtype { s_kind : ascii; s_itemsize : nat; s_byteorder : ascii }.

Definition sample_dtype_eqb (a b : sample_dtype) : bool :=
  Ascii.eqb (s_kind a) (s_kind b) && Nat.eqb (s_itemsize a) (s_itemsize b)
  && Ascii.eqb (s_byteorder a) (s_byteorder b).

Definition sample_dtype_eqb_eq (a b : sample_dtype) :
  sample_dtype_eqb a b = true <-> a = b.
Proof.
  destruct a as [ka sa oa], b as [kb sb ob]; unfold sample_dtype_eqb; simpl.
  rewrite !andb_true_iff, !Ascii.eqb_eq, Nat.eqb_eq.
  split; [intros [[-> ->] ->]; reflexivity|].
  intros H; inversion H; auto.
Qed.

#[export] Instance sample_types : ExternalTypes :=
  {| np_dtype := sample_dtype;
     Image := list string;   (* the file paths of the descriptor *)
     Data := list string;
     Pixdim := list nat;
     Axcodes := string |}.

Definition sample_isfile (f : string) : bool :=
  str_in f ["A.csv"; "B.csv"; "C.csv"; "D.csv"; "N.csv"].

Definition sample_csv_records (f : string) : list (string * string) :=
  if String.eqb f "A.csv" then [("s1", "a1.img"); ("s2", "a2.img")]
  else if String.eqb f "B.csv" then [("s1", "b1.img"); ("s3", "b3.img")]
  else if String.eqb f "C.csv" then [("s9", "x")]
  else if String.eqb f "D.csv" then [("s1", "d1.img"); ("s1", "d1bis.img")]
  else if String.eqb f "N.csv" then [("101", "n101.img"); ("102", "n102.img")]
  else [].

(** [N.csv] numbers its subjects; the other manifests name them. *)
Definition sample_csv_key_dtype (f : string) : key_dtype :=
  if String.eqb f "N.csv" then numeric_key else object_key.

Definition int16 : np_dtype := mk_sample_dtype "i"%char 2 "="%char.
Definition int16_swapped : np_dtype := mk_sample_dtype "i"%char 2 ">"%char.
Definition float32 : np_dtype := mk_sample_dtype "f"%char 4 "="%char.
Definition complex64 : np_dtype := mk_sample_dtype "c"%char 8 "="%char.

(** The element type an image file decodes to, read off its name. *)
Definition sample_dtype_of (path : string) : np_dtype :=
  match path with
  | String "a"%char _ => int16
  | String "b"%char _ => float32
  | String "d"%char _ => int16_swapped
  | _ => complex64
  end.

#[export] Instance sample_external : External :=
  {| isfile := sample_isfile;
     csv_records := sample_csv_records;
     csv_key_dtype := sample_csv_key_dtype;
     SUPPORTED_INPUT_segmentation := ["image"; "label"; "weight"; "sampler"];
     SUPPORTED_INPUT_gan := ["image"; "conditioning"];
     make_input_tuple := fun t => t;
     make_input_tuple_seq := fun t => eq_refl;
     create_instance := fun props => ip_file_path props;
     get_data := fun image => image;
     data_shape := fun data => [length data];
     image_dtype := fun image => map sample_dtype_of image;
     kind := s_kind;
     np_dtype_eqb := sample_dtype_eqb;
     np_dtype_eqb_eq := sample_dtype_eqb_eq |}.

Definition section_of (csv : string) : ModalityParam :=
  {| csv_file := csv; interp_order := 3%Z; pixdim := [1; 1; 1];
     axcodes := "RAS" |}.

Definition data_AB : dict ModalityParam :=
  [("A", section_of "A.csv"); ("B", section_of "B.csv")].
Definition data_AD : dict ModalityParam :=
  [("A", section_of "A.csv"); ("D", section_of "D.csv")].
Definition data_A : dict ModalityParam := [("A", section_of "A.csv")].
Definition data_C : dict ModalityParam := [("C", section_of "C.csv")].

Definition task_seg : dict pyval :=
  [("name", PStr "net_segmentation.py");
   ("image", PTuple ["A"; "B"]); ("label", PTuple ["A"]);
   ("weight", PTuple [])].
Definition task_other : dict pyval :=
  [("name", PStr "net_regression.py");
   ("image", PTuple ["A"; "B"]); ("label", PTuple ["A"])].
Definition task_no_field : dict pyval :=
  [("name", PStr "net_segmentation.py");
   ("image", PTuple []); ("label", PTuple [])].
Definition task_C : dict pyval :=
  [("name", PStr "net_gan.py"); ("image", PTuple ["C"])].
Definition task_unknown_modality : dict pyval :=
  [("name", PStr "net_segmentation.py");
   ("image", PTuple ["A"]); ("label", PTuple ["A"; "T1"])].

(** Two manifests without a common subject, one keyed by names and one
    by numbers. *)
Definition data_AN : dict ModalityParam :=
  [("A", section_of "A.csv"); ("N", section_of "N.csv")].
(** [N.csv] numbers its subjects, and [Z.csv] is no file. *)
Definition data_ANZ : dict ModalityParam :=
  [("A", section_of "A.csv"); ("N", section_of "N.csv");
   ("Z", section_of "Z.csv")].
Definition data_BA : dict ModalityParam :=
  [("B", section_of "B.csv"); ("A", section_of "A.csv")].
Definition data_DD : dict ModalityParam :=
  [("D", section_of "D.csv"); ("E", section_of "D.csv")].

(** A reader built with no explicit field, and one asked for ['image']. *)
Definition fresh : ImageReader := ImageReader_init [].
Definition fresh_image : ImageReader := ImageReader_init ["image"].

(** The join of [A.csv] and [B.csv]. *)
Definition merged_AB : DataFrame :=
  {| subject_id_dtype := object_key;
     columns := ["A"; "B"]; rows := [("s1", ["a1.img"; "b1.img"])] |}.

(** The segmentation reader once initialised over the two modalities. *)
Definition reader_AB : ImageReader :=
  snd (initialise_reader data_AB task_seg fresh).

(** A reader in the middle of a catalog build whose ['label'] field asks
    for a modality [T1] that has no section. *)
Definition reader_T1 : ImageReader :=
  mkImageReader (Some merged_AB) ["image"; "label"]
                (Some [("image", PTuple ["A"]); ("label", PTuple ["A"; "T1"])])
                None None None None.

(** A reader over [A.csv] and [D.csv], which lists the subject [s1]
    twice. *)
Definition task_AD : dict pyval :=
  [("name", PStr "net_segmentation.py"); ("image", PTuple ["A"; "D"])].
Definition reader_AD : ImageReader :=
  snd (initialise_reader data_AD task_AD fresh).

(** The GAN reader over the modality C, whose image decodes to complex
    numbers. *)
Definition reader_C : ImageReader :=
  snd (initialise_reader data_C task_C fresh).


(** The join of [A.csv] with [D.csv], which lists s1 twice. *)
Definition merged_AD : DataFrame :=
  {| subject_id_dtype := object_key;
     columns := ["A"; "D"];
     rows := [("s1", ["a1.img"; "d1.img"]); ("s1", ["a1.img"; "d1bis.img"])] |}.

(** The only entry of the catalog of [reader_AB]. *)
Definition entry_AB : dict Image :=
  [("image", ["a1.img"; "b1.img"]); ("label", ["a1.img"])].

(** [reader_AB] once its shapes and element types have been asked for. *)
Definition reader_memo : ImageReader :=
  snd (dtypes (snd (shapes reader_AB))).

(** [reader_memo] initialised again, for the GAN application over the
    modality C. *)
Definition reader_memo_C : ImageReader :=
  snd (initialise_reader data_C task_C reader_memo).

End Sample.

(** * Facts about the helpers *)

Section Comprehensions.
Context {A B : Type}.

Lemma list_comp_ok (f : A -> result B) (l : list A) (ys : list B) :
  list_comp f l = Ok ys -> Forall2 (fun x y => f x = Ok y) l ys.
Proof.
  revert ys; induction l as [|x l IH]; simpl; intros ys H.
  - inversion H; constructor.
  - destruct (f x) as [y|e] eqn:Hx; [|discriminate].
    destruct (list_comp f l) as [ys'|e]; [|discriminate].
    inversion H; subst; constructor; auto.
Qed.

Lemma list_comp_total (f : A -> result B) (g : A -> B) (l : list A) :
  (forall x, In x l -> f x = Ok (g x)) -> list_comp f l = Ok (map g l).
Proof.
  induction l as [|x l IH]; simpl; intros H; [reflexivity|].
  rewrite (H x) by auto. rewrite IH by auto. reflexivity.
Qed.

(** When every element either succeeds or fails in the one way [e], the
    comprehension fails in that way as soon as one element does. *)
Lemma list_comp_fails (f : A -> result B) (e : failure) (l : list A) :
  (forall x, In x l -> (exists y, f x = Ok y) \/ f x = Err e) ->
  (exists x, In x l /\ f x = Err e) ->
  list_comp f l = Err e.
Proof.
  induction l as [|x l IH]; simpl; intros Hall [x0 [Hin Hx0]]; [contradiction|].
  destruct (Hall x (or_introl eq_refl)) as [[y Hy]|He].
  - rewrite Hy. destruct Hin as [->|Hin]; [congruence|].
    rewrite IH; eauto.
  - rewrite He; reflexivity.
Qed.

Lemma list_comp_first_fails (f : A -> result B) (e : failure) x (l : list A) :
  f x = Err e -> list_comp f (x :: l) = Err e.
Proof. intros H; simpl; rewrite H; reflexivity. Qed.

End Comprehensions.

Section Dicts.
Context {V : Type}.

Lemma dict_get_In (d : dict V) k v : dict_get d k = Some v -> In (k, v) d.
Proof.
  induction d as [|[k' v'] d IH]; simpl; [discriminate|].
  destruct (String.eqb_spec k' k) as [->|Hne]; intros H.
  - inversion H; auto.
  - auto.
Qed.

Lemma dict_get_keys (d : dict V) k :
  In k (keys d) <-> exists v, dict_get d k = Some v.
Proof.
  induction d as [|[k' v'] d IH]; simpl.
  - split; [contradiction|intros [v H]; discriminate].
  - destruct (String.eqb_spec k' k) as [->|Hne].
    + split; eauto.
    + rewrite <- IH. split; [intros [H|H]; [contradiction|assumption]|auto].
Qed.

Lemma dict_get_none (d : dict V) k : dict_get d k = None <-> ~ In k (keys d).
Proof.
  rewrite dict_get_keys. destruct (dict_get d k) as [v|]; split; intros H.
  - discriminate.
  - exfalso; apply H; eauto.
  - intros [v Hv]; discriminate.
  - reflexivity.
Qed.

Lemma dict_get_set (d : dict V) k v k' :
  dict_get (dict_set d k v) k' =
  if String.eqb k k' then Some v else dict_get d k'.
Proof.
  induction d as [|[k0 v0] d IH]; simpl.
  - reflexivity.
  - destruct (String.eqb_spec k0 k) as [->|Hne]; simpl.
    + destruct (String.eqb k k'); reflexivity.
    + rewrite IH. destruct (String.eqb_spec k0 k') as [->|Hne'].
      * destruct (String.eqb_spec k k'); [congruence|reflexivity].
      * reflexivity.
Qed.

Lemma keys_dict_set (d : dict V) k v k' :
  In k' (keys (dict_set d k v)) <-> k' = k \/ In k' (keys d).
Proof.
  rewrite !dict_get_keys. rewrite dict_get_set.
  destruct (String.eqb_spec k k') as [->|Hne].
  - split; eauto.
  - split; [intros H; auto|intros [->|H]; [congruence|assumption]].
Qed.

Lemma dict_set_not_nil (d : dict V) k v : dict_set d k v <> [].
Proof.
  destruct d as [|[k' v'] d]; simpl; [discriminate|].
  destruct (String.eqb k' k); discriminate.
Qed.

Lemma dict_set_well_formed (d : dict V) k v :
  well_formed_dict d -> well_formed_dict (dict_set d k v).
Proof.
  unfold well_formed_dict.
  induction d as [|[k' v'] d IH]; simpl; intros H.
  - constructor; [simpl; tauto|constructor].
  - inversion H as [|? ? Hnin Hnd]; subst.
    destruct (String.eqb_spec k' k) as [->|Hne]; simpl.
    + constructor; assumption.
    + constructor; [|auto].
      fold (keys (dict_set d k v)). rewrite keys_dict_set.
      intros [->|Hin]; [congruence|]. apply Hnin; exact Hin.
Qed.

Lemma dict_set_fresh (d : dict V) k v :
  ~ In k (keys d) -> dict_set d k v = d ++ [(k, v)].
Proof.
  induction d as [|[k' v'] d IH]; simpl; intros H; [reflexivity|].
  destruct (String.eqb_spec k' k) as [->|Hne]; [tauto|].
  rewrite IH by tauto. reflexivity.
Qed.

Lemma dict_fold_cons (acc : dict V) k v l :
  dict_fold acc ((k, v) :: l) = dict_fold (dict_set acc k v) l.
Proof. reflexivity. Qed.

Lemma dict_fold_well_formed (l : list (string * V)) : forall (acc : dict V),
  well_formed_dict acc -> well_formed_dict (dict_fold acc l).
Proof.
  induction l as [|[k v] l IH]; intros acc H; [exact H|].
  rewrite dict_fold_cons. apply IH, dict_set_well_formed, H.
Qed.

Lemma dict_fold_not_nil (l : list (string * V)) : forall (acc : dict V),
  acc <> [] \/ l <> [] -> dict_fold acc l <> [].
Proof.
  induction l as [|[k v] l IH]; intros acc H.
  - destruct H as [H|H]; [assumption|congruence].
  - rewrite dict_fold_cons. apply IH. left. apply dict_set_not_nil.
Qed.

Lemma dict_fold_keys (l : list (string * V)) : forall (acc : dict V) k,
  In k (keys (dict_fold acc l)) <-> In k (keys acc) \/ In k (map fst l).
Proof.
  induction l as [|[k0 v0] l IH]; intros acc k.
  - simpl; tauto.
  - rewrite dict_fold_cons, IH, keys_dict_set. simpl. intuition congruence.
Qed.

(** A lookup in the folded dict finds a pair of the list or of the
    starting dict. *)
Lemma dict_fold_get (l : list (string * V)) : forall (acc : dict V) k v,
  dict_get (dict_fold acc l) k = Some v ->
  In (k, v) l \/ dict_get acc k = Some v.
Proof.
  induction l as [|[k0 v0] l IH]; intros acc k v H; [auto|].
  rewrite dict_fold_cons in H.
  apply IH in H. destruct H as [H|H]; [simpl; auto|].
  rewrite dict_get_set in H. simpl.
  destruct (String.eqb_spec k0 k) as [->|Hne]; [|auto].
  inversion H; subst; auto.
Qed.

Lemma dict_fold_fresh (l : list (string * V)) : forall (acc : dict V),
  NoDup (keys acc ++ map fst l) -> dict_fold acc l = acc ++ l.
Proof.
  induction l as [|[k v] l IH]; intros acc H.
  - simpl. rewrite app_nil_r; reflexivity.
  - rewrite dict_fold_cons. simpl in H. rewrite dict_set_fresh.
    + rewrite IH.
      * rewrite <- app_assoc; reflexivity.
      * unfold keys. rewrite map_app. simpl. rewrite <- app_assoc. exact H.
    + apply NoDup_remove_2 in H. intros Hin; apply H, in_or_app; auto.
Qed.

Lemma dict_of_pairs_well_formed (l : list (string * V)) :
  well_formed_dict (dict_of_pairs l).
Proof. apply (dict_fold_well_formed l []). unfold well_formed_dict; simpl; constructor. Qed.

Lemma dict_of_pairs_not_nil (l : list (string * V)) :
  l <> [] -> dict_of_pairs l <> [].
Proof. intros H. apply (dict_fold_not_nil l []). auto. Qed.

Lemma dict_of_pairs_keys (l : list (string * V)) k :
  In k (keys (dict_of_pairs l)) <-> In k (map fst l).
Proof.
  unfold dict_of_pairs. rewrite dict_fold_keys.
  simpl; tauto.
Qed.

Lemma dict_of_pairs_get (l : list (string * V)) k v :
  dict_get (dict_of_pairs l) k = Some v -> In (k, v) l.
Proof.
  intros H. apply (dict_fold_get l []) in H. destruct H as [H|H]; [assumption|].
  discriminate.
Qed.

(** On pairs with distinct keys the comprehension keeps the pairs as
    they are. *)
Lemma dict_of_pairs_distinct (l : list (string * V)) :
  NoDup (map fst l) -> dict_of_pairs l = l.
Proof. intros H. apply (dict_fold_fresh l []). exact H. Qed.

(** What a dict comprehension that returned holds. *)
Lemma dict_comp_ok (f : string -> result V) ks d :
  dict_comp f ks = Ok d ->
  (forall k, In k (keys d) <-> In k ks) /\
  (forall k v, dict_get d k = Some v -> In k ks /\ f k = Ok v) /\
  well_formed_dict d /\ (ks <> [] -> d <> []).
Proof.
  unfold dict_comp, rbind. intros H.
  destruct (list_comp _ ks) as [kvs|e] eqn:Hc; [|discriminate].
  inversion H; subst; clear H.
  apply list_comp_ok in Hc.
  assert (Hfst : map fst kvs = ks).
  { induction Hc as [|k0 kv ks kvs Hk _ IH]; [reflexivity|].
    destruct (f k0) as [v0|]; [|discriminate]. inversion Hk; subst.
    simpl; f_equal; exact IH. }
  assert (Hkv : forall k v, In (k, v) kvs -> In k ks /\ f k = Ok v).
  { clear Hfst. induction Hc as [|k0 kv ks kvs Hk _ IH]; intros k v Hin; [contradiction|].
    destruct (f k0) as [v0|] eqn:Hf; [|discriminate]. inversion Hk; subst.
    destruct Hin as [Heq|Hin].
    - inversion Heq; subst; simpl; auto.
    - destruct (IH _ _ Hin); simpl; auto. }
  repeat split.
  - rewrite dict_of_pairs_keys, Hfst; auto.
  - rewrite dict_of_pairs_keys, Hfst; auto.
  - apply dict_of_pairs_get, Hkv in H; tauto.
  - apply dict_of_pairs_get, Hkv in H; tauto.
  - apply dict_of_pairs_well_formed.
  - intros Hne. apply dict_of_pairs_not_nil. intros ->. apply Hne.
    rewrite <- Hfst; reflexivity.
Qed.

End Dicts.

(** * Element types *)

Section ElementTypes.
Context {Types : ExternalTypes} {Ext : External}.

Lemma np_dtype_eqb_spec (a b : np_dtype) : reflect (a = b) (np_dtype_eqb a b).
Proof.
  destruct (np_dtype_eqb a b) eqn:Hab; constructor.
  - apply np_dtype_eqb_eq; exact Hab.
  - intros Heq. apply np_dtype_eqb_eq in Heq. congruence.
Qed.

Lemma existsb_np_dtype (d : np_dtype) l :
  existsb (np_dtype_eqb d) l = true <-> In d l.
Proof.
  rewrite existsb_exists. split.
  - intros [x [Hin Heq]]. destruct (np_dtype_eqb_spec d x); congruence.
  - intros Hin. exists d. split; [assumption|].
    destruct (np_dtype_eqb_spec d d); congruence.
Qed.

Lemma py_set_In l d : In d (py_set l) <-> In d l.
Proof.
  induction l as [|x l IH]; simpl; [tauto|].
  destruct (existsb (np_dtype_eqb x) l) eqn:Hx.
  - apply existsb_np_dtype in Hx. rewrite IH. split; [auto|].
    intros [->|H]; assumption.
  - simpl. rewrite IH. tauto.
Qed.

Lemma py_set_NoDup l : NoDup (py_set l).
Proof.
  induction l as [|x l IH]; simpl; [constructor|].
  destruct (existsb (np_dtype_eqb x) l) eqn:Hx; [assumption|].
  constructor; [|assumption].
  rewrite py_set_In, <- existsb_np_dtype. congruence.
Qed.

(** Two distinct codes leave a set of more than one element. *)
Lemma py_set_mixed l a b :
  In a l -> In b l -> a <> b -> 1 < length (py_set l).
Proof.
  intros Ha Hb Hab. rewrite <- py_set_In in Ha, Hb.
  destruct (py_set l) as [|x [|y t]]; simpl in *.
  - contradiction.
  - exfalso. apply Hab. intuition congruence.
  - lia.
Qed.

(** A single code, however often reported, leaves the singleton. *)
Lemma py_set_homogeneous l d :
  l <> [] -> (forall a, In a l -> a = d) -> py_set l = [d].
Proof.
  intros Hne Hall.
  assert (Hd : In d (py_set l)).
  { rewrite py_set_In. destruct l as [|x l]; [congruence|].
    rewrite <- (Hall x); simpl; auto. }
  assert (Hall' : forall a, In a (py_set l) -> a = d).
  { intros a Ha. apply Hall. rewrite <- py_set_In. exact Ha. }
  pose proof (py_set_NoDup l) as Hnd.
  destruct (py_set l) as [|x [|y t]]; simpl in *.
  - contradiction.
  - rewrite (Hall' x); auto.
  - exfalso. inversion Hnd as [|? ? Hnin _]; subst. apply Hnin.
    rewrite (Hall' x), (Hall' y); simpl; auto.
Qed.

(** The map a first [dtypes] call computes holds, for each output field,
    what [infer_tf_dtypes] returns on the first catalog entry's image. *)
Lemma dtypes_sampled self random_image rest dmap self' :
  output_list self = Some (random_image :: rest) ->
  truthy (_dtypes self) = false ->
  dtypes self = (Ok dmap, self') ->
  _dtypes self' = Some dmap /\
  forall field, In field (_output_fields self) ->
    exists image inferred,
      dict_get random_image field = Some image /\
      infer_tf_dtypes image = Ok inferred /\
      dict_get dmap field = Some inferred.
Proof.
  intros Hol Hmemo Hd. unfold dtypes in Hd. rewrite Hol in Hd.
  assert (Hcomp : exists d,
            dict_comp (fun field =>
                         (image <- dict_item random_image field ;;
                          infer_tf_dtypes image)%result)
                      (_output_fields self) = Ok d /\ d = dmap /\
            self' = set_dtypes self (Some d)).
  { destruct (_dtypes self) as [[|e d]|]; simpl in Hmemo; try discriminate;
      destruct (dict_comp _ _) as [d'|f]; inversion Hd; eauto. }
  destruct Hcomp as [d [Hcomp [-> ->]]]. split; [reflexivity|].
  apply dict_comp_ok in Hcomp. destruct Hcomp as [Hkeys [Hget _]].
  intros field Hin. apply Hkeys, dict_get_keys in Hin.
  destruct Hin as [inferred Hinf]. destruct (Hget _ _ Hinf) as [_ Hf].
  unfold rbind, dict_item in Hf.
  destruct (dict_get random_image field) as [image|]; [|discriminate].
  eauto.
Qed.

(** C6. The element type inferred for a decoded sample is the 32-bit
    floating type as soon as the sample reports two distinct native
    codes; with a single code [d] it is the table entry of [d]'s kind,
    which is the 32-bit integer type for the kinds i, u and b and the
    32-bit floating type for the kind f. *)
Theorem infer_tf_dtypes_promotion (image_object : Image) :
  ((exists a b, In a (image_dtype image_object) /\
                In b (image_dtype image_object) /\ a <> b) ->
   infer_tf_dtypes image_object = Ok (Some tf_float32)) /\
  (forall d,
     image_dtype image_object <> [] ->
     (forall a, In a (image_dtype image_object) -> a = d) ->
     infer_tf_dtypes image_object = Ok (ascii_get NP_TF_DTYPES (kind d)) /\
     (kind d = "i"%char \/ kind d = "u"%char \/ kind d = "b"%char ->
      infer_tf_dtypes image_object = Ok (Some tf_int32)) /\
     (kind d = "f"%char ->
      infer_tf_dtypes image_object = Ok (Some tf_float32))).
Proof.
  split.
  - intros [a [b [Ha [Hb Hab]]]]. unfold infer_tf_dtypes.
    pose proof (py_set_mixed _ _ _ Ha Hb Hab) as Hlen.
    apply Nat.ltb_lt in Hlen. rewrite Hlen. reflexivity.
  - intros d Hne Hall.
    assert (Hinfer : infer_tf_dtypes image_object
                     = Ok (ascii_get NP_TF_DTYPES (kind d))).
    { unfold infer_tf_dtypes. rewrite (py_set_homogeneous _ d Hne Hall).
      reflexivity. }
    split; [exact Hinfer|]. split.
    + intros [Hk|[Hk|Hk]]; rewrite Hinfer, Hk; reflexivity.
    + intros Hk; rewrite Hinfer, Hk; reflexivity.
Qed.

(** C10. With a single native code whose kind is none of i, u, b, f the
    inference returns [None] and raises nothing; the map computed by
    [dtypes] then holds [None] for every field sampled from such an
    image. *)
Theorem infer_tf_dtypes_unmapped_kind (image_object : Image) (d : np_dtype) :
  image_dtype image_object <> [] ->
  (forall a, In a (image_dtype image_object) -> a = d) ->
  kind d <> "i"%char -> kind d <> "u"%char ->
  kind d <> "b"%char -> kind d <> "f"%char ->
  infer_tf_dtypes image_object = Ok None /\
  forall self random_image rest field dmap self',
    output_list self = Some (random_image :: rest) ->
    truthy (_dtypes self) = false ->
    In field (_output_fields self) ->
    dict_get random_image field = Some image_object ->
    dtypes self = (Ok dmap, self') ->
    dict_get dmap field = Some None /\ _dtypes self' = Some dmap.
Proof.
  intros Hne Hall Hi Hu Hb Hf.
  assert (Hinfer : infer_tf_dtypes image_object = Ok None).
  { unfold infer_tf_dtypes. rewrite (py_set_homogeneous _ d Hne Hall).
    cbn [length Nat.ltb Nat.leb]. unfold NP_TF_DTYPES. cbn [ascii_get].
    destruct (Ascii.eqb_spec "i"%char (kind d)); [congruence|].
    destruct (Ascii.eqb_spec "u"%char (kind d)); [congruence|].
    destruct (Ascii.eqb_spec "b"%char (kind d)); [congruence|].
    destruct (Ascii.eqb_spec "f"%char (kind d)); [congruence|].
    reflexivity. }
  split; [exact Hinfer|].
  intros self random_image rest field dmap self' Hol Hmemo Hin Hget Hd.
  destruct (dtypes_sampled _ _ _ _ _ Hol Hmemo Hd) as [Hset Hfields].
  destruct (Hfields field Hin) as [image [inferred [Hg [Hi' Hd']]]].
  split; [|exact Hset]. congruence.
Qed.

End ElementTypes.

(** * The manifest merge *)

Lemma str_in_In x l : str_in x l = true <-> In x l.
Proof.
  unfold str_in. rewrite existsb_exists. split.
  - intros [y [Hin Heq]]. apply String.eqb_eq in Heq. congruence.
  - intros Hin. exists x. split; [assumption|apply String.eqb_refl].
Qed.

Lemma index_of_In x l :
  In x l -> exists j, index_of x l = Some j /\ nth_error l j = Some x.
Proof.
  induction l as [|y l IH]; simpl; [contradiction|].
  intros Hin. destruct (String.eqb_spec y x) as [->|Hne].
  - exists 0; auto.
  - destruct Hin as [Heq|Hin]; [congruence|].
    destruct (IH Hin) as [j [Hj Hn]]. exists (S j). rewrite Hj; auto.
Qed.

Lemma index_of_none x l : index_of x l = None -> ~ In x l.
Proof.
  intros H Hin. destruct (index_of_In _ _ Hin) as [j [Hj _]]. congruence.
Qed.

Lemma Forall2_nth_error_l {A B : Type} (R : A -> B -> Prop) l l' j x :
  Forall2 R l l' -> nth_error l j = Some x ->
  exists y, nth_error l' j = Some y /\ R x y.
Proof.
  intros HF. revert j. induction HF as [|a b l l' Hab _ IH]; intros j Hj.
  - destruct j; discriminate.
  - destruct j as [|j]; simpl in *.
    + inversion Hj; subst; eauto.
    + auto.
Qed.

(** ** The order of the keys of a join *)

Lemma first_seen_from_In seen l x :
  In x (first_seen_from seen l) <-> In x l /\ ~ In x seen.
Proof.
  revert seen. induction l as [|y l IH]; intros seen; simpl; [tauto|].
  destruct (str_in y seen) eqn:Hy.
  - apply str_in_In in Hy. rewrite IH. split.
    + intros [H1 H2]; auto.
    + intros [[->|H1] H2]; [contradiction|auto].
  - assert (Hny : ~ In y seen) by (rewrite <- str_in_In; congruence).
    simpl. rewrite IH. simpl. split.
    + intros [->|[H1 H2]]; [auto|]. split; [auto|]. tauto.
    + intros [[->|H1] H2]; [auto|].
      destruct (string_dec y x) as [->|Hne]; [auto|].
      right. split; [exact H1|]. intros [Heq|H]; [congruence|contradiction].
Qed.

Lemma first_seen_from_NoDup seen l : NoDup (first_seen_from seen l).
Proof.
  revert seen. induction l as [|y l IH]; intros seen; simpl; [constructor|].
  destruct (str_in y seen); [apply IH|].
  constructor; [|apply IH].
  rewrite first_seen_from_In. simpl. tauto.
Qed.

Lemma first_seen_In l x : In x (first_seen l) <-> In x l.
Proof. unfold first_seen. rewrite first_seen_from_In. simpl. tauto. Qed.

(** Distinct keys are first met in the order they stand in. *)
Lemma first_seen_from_distinct seen l :
  NoDup l -> (forall x, In x l -> ~ In x seen) -> first_seen_from seen l = l.
Proof.
  revert seen. induction l as [|y l IH]; intros seen Hnd Hseen; simpl;
    [reflexivity|].
  inversion Hnd as [|? ? Hnin Hnd']; subst.
  assert (Hy : str_in y seen = false).
  { destruct (str_in y seen) eqn:Hy; [|reflexivity].
    apply str_in_In in Hy. exfalso. apply (Hseen y); simpl; auto. }
  rewrite Hy. f_equal. apply IH; [exact Hnd'|].
  intros x Hx [<-|Hin]; [contradiction|]. apply (Hseen x); simpl; auto.
Qed.

Lemma filter_filter_andb {A : Type} (f g : A -> bool) l :
  filter f (filter g l) = filter (fun x => g x && f x) l.
Proof.
  induction l as [|x l IH]; simpl; [reflexivity|].
  destruct (g x); simpl; [|exact IH].
  destruct (f x); [f_equal|]; exact IH.
Qed.

Lemma map_of_flat_map {A B C : Type} (g : B -> C) (f : A -> list B) l :
  map g (flat_map f l) = flat_map (fun x => map g (f x)) l.
Proof.
  induction l as [|x l IH]; simpl; [reflexivity|].
  rewrite map_app, IH. reflexivity.
Qed.

Lemma flat_map_of_map {A B C : Type} (g : A -> B) (f : B -> list C) l :
  flat_map f (map g l) = flat_map (fun x => f (g x)) l.
Proof.
  induction l as [|x l IH]; simpl; [reflexivity|]. rewrite IH. reflexivity.
Qed.

Lemma flat_map_ext_on {A B : Type} (f g : A -> list B) l :
  (forall x, In x l -> f x = g x) -> flat_map f l = flat_map g l.
Proof.
  induction l as [|x l IH]; simpl; intros Hfg; [reflexivity|].
  rewrite (Hfg x), IH; auto.
Qed.

Lemma length_flat_map_const {A B : Type} (f : A -> list B) l n :
  (forall x, In x l -> length (f x) = n) ->
  length (flat_map f l) = length l * n.
Proof.
  induction l as [|x l IH]; simpl; intros Hn; [reflexivity|].
  rewrite length_app, (Hn x), IH; auto.
Qed.

Lemma length_filter_key (table : list (string * list string)) k :
  length (filter (fun row => String.eqb (fst row) k) table)
  = count_occ string_dec (map fst table) k.
Proof.
  induction table as [|[k' c] table IH]; simpl; [reflexivity|].
  destruct (String.eqb_spec k' k) as [->|Hne]; simpl.
  - destruct (string_dec k k); [|congruence]. rewrite IH. reflexivity.
  - destruct (string_dec k' k); [congruence|]. exact IH.
Qed.

Lemma count_occ_all_eq l k s :
  (forall y, In y l -> y = k) ->
  count_occ string_dec l s = if string_dec k s then length l else 0.
Proof.
  induction l as [|y l IH]; simpl; intros Hall.
  - destruct (string_dec k s); reflexivity.
  - rewrite IH by auto. rewrite (Hall y) by auto.
    destruct (string_dec k s); reflexivity.
Qed.

Lemma count_occ_flat_map_keys (f : string -> list string) ks s :
  (forall k y, In y (f k) -> y = k) -> NoDup ks ->
  count_occ string_dec (flat_map f ks) s =
  if in_dec string_dec s ks then length (f s) else 0.
Proof.
  intros Hf. induction ks as [|k ks IH]; simpl; intros Hnd; [reflexivity|].
  inversion Hnd as [|? ? Hnin Hnd']; subst.
  rewrite count_occ_app, (count_occ_all_eq (f k) k s (Hf k)), IH by exact Hnd'.
  destruct (string_dec k s) as [->|Hne].
  - destruct (in_dec string_dec s ks); [contradiction|]. lia.
  - destruct (in_dec string_dec s ks); reflexivity.
Qed.

(** A join gives a subject as many rows as the product of its rows on
    the two sides. *)
Lemma join_rows_count left right s :
  count_occ string_dec (map fst (join_rows left right)) s =
  count_occ string_dec (map fst left) s *
  count_occ string_dec (map fst right) s.
Proof.
  unfold join_rows. rewrite map_of_flat_map.
  rewrite count_occ_flat_map_keys.
  - destruct (in_dec string_dec s (first_seen (map fst left))) as [Hin|Hnin].
    + rewrite length_map.
      rewrite (length_flat_map_const _ _
                 (length (filter (fun r => String.eqb (fst r) s) right))).
      * rewrite !length_filter_key. reflexivity.
      * intros l _. apply length_map.
    + rewrite first_seen_In in Hnin.
      apply (count_occ_not_In string_dec) in Hnin. rewrite Hnin. reflexivity.
  - intros k y Hy. apply in_map_iff in Hy. destruct Hy as [[k' c] [<- Hin]].
    apply in_flat_map in Hin. destruct Hin as [l [_ Hin]].
    apply in_map_iff in Hin. destruct Hin as [r [Heq _]].
    inversion Heq; reflexivity.
  - apply first_seen_from_NoDup.
Qed.

(** The key column of a join: the keys of the left table that the right
    table holds too. *)
Lemma join_rows_ids_In left right s :
  In s (map fst (join_rows left right)) <->
  In s (map fst left) /\ In s (map fst right).
Proof.
  rewrite !(count_occ_In string_dec), join_rows_count. unfold gt.
  apply Nat.lt_0_mul'.
Qed.

Lemma join_rows_nil_r left : join_rows left [] = [].
Proof.
  destruct (join_rows left []) as [|[s cells] rest] eqn:Hj; [reflexivity|].
  assert (Hin : In s (map fst (join_rows left []))) by (rewrite Hj; simpl; auto).
  apply join_rows_ids_In in Hin. destruct Hin as [_ []].
Qed.

Lemma join_rows_In left right s cells :
  In (s, cells) (join_rows left right) ->
  exists cl cr, cells = cl ++ cr /\ In (s, cl) left /\ In (s, cr) right.
Proof.
  unfold join_rows. intros Hin.
  apply in_flat_map in Hin. destruct Hin as [k [_ Hin]].
  apply in_flat_map in Hin. destruct Hin as [[sl cl] [Hl Hin]].
  apply in_map_iff in Hin. destruct Hin as [[sr cr] [Heq Hr]].
  apply filter_In in Hl, Hr. destruct Hl as [Hl Hkl], Hr as [Hr Hkr].
  simpl in *. apply String.eqb_eq in Hkl, Hkr. inversion Heq; subst. eauto.
Qed.

(** The rows of a table with distinct keys that have the key of one of
    them. *)
Lemma filter_key_absent (table : list (string * list string)) k :
  ~ In k (map fst table) ->
  filter (fun row => String.eqb (fst row) k) table = [].
Proof.
  induction table as [|[k' c'] table IH]; simpl; intros Hk; [reflexivity|].
  destruct (String.eqb_spec k' k) as [->|Hne]; [tauto|]. apply IH; tauto.
Qed.

Lemma filter_key_unique (table : list (string * list string)) row :
  NoDup (map fst table) -> In row table ->
  filter (fun row' => String.eqb (fst row') (fst row)) table = [row].
Proof.
  induction table as [|[k c] table IH]; simpl; intros Hnd Hin; [contradiction|].
  inversion Hnd as [|? ? Hnin Hnd']; subst.
  destruct Hin as [<-|Hin]; simpl.
  - rewrite String.eqb_refl. f_equal. apply filter_key_absent; exact Hnin.
  - destruct (String.eqb_spec k (fst row)) as [->|Hne].
    + exfalso. apply Hnin. apply in_map. exact Hin.
    + apply IH; assumption.
Qed.

(** On a left table with distinct keys the join follows the left rows. *)
Lemma join_rows_distinct left right :
  NoDup (map fst left) ->
  join_rows left right =
  flat_map (fun l => map (fun r => (fst l, snd l ++ snd r))
                         (filter (fun r => String.eqb (fst r) (fst l)) right))
           left.
Proof.
  intros Hnd. unfold join_rows, first_seen.
  rewrite first_seen_from_distinct by (simpl; auto).
  rewrite flat_map_of_map. apply flat_map_ext_on. intros l Hl.
  rewrite (filter_key_unique left l Hnd Hl). simpl. apply app_nil_r.
Qed.

(** The rows of a right table with distinct keys that match one key. *)
Lemma filter_key_distinct (right : list (string * list string)) s :
  NoDup (map fst right) ->
  map fst (filter (fun r => String.eqb (fst r) s) right) =
  if str_in s (map fst right) then [s] else [].
Proof.
  induction right as [|[k c] right IH]; simpl; intros Hnd; [reflexivity|].
  inversion Hnd as [|? ? Hnin Hnd']; subst.
  rewrite String.eqb_sym.
  destruct (String.eqb_spec s k) as [->|Hne]; simpl.
  - rewrite IH by assumption.
    destruct (str_in k (map fst right)) eqn:Hin; [|reflexivity].
    apply str_in_In in Hin. contradiction.
  - apply IH; assumption.
Qed.

(** With distinct keys on both sides the join keeps, in order, the left
    rows whose key the right table holds. *)
Lemma join_rows_ids_distinct left right :
  NoDup (map fst left) -> NoDup (map fst right) ->
  map fst (join_rows left right) =
  filter (fun s => str_in s (map fst right)) (map fst left).
Proof.
  intros Hl Hnd. rewrite (join_rows_distinct left right Hl). clear Hl.
  induction left as [|l ls IH]; simpl; [reflexivity|].
  rewrite map_app, IH, map_map. simpl.
  pose proof (filter_key_distinct right (fst l) Hnd) as Hf.
  rewrite <- (map_map fst (fun _ => fst l)).
  assert (Hconst : forall xs : list (string * list string),
             Forall (fun r => fst r = fst l) xs ->
             map (fun _ => fst l) xs = map fst xs).
  { induction 1 as [|x xs Hx _ IHx]; simpl; congruence. }
  rewrite map_map, Hconst, Hf.
  - destruct (str_in (fst l) (map fst right)); reflexivity.
  - apply Forall_forall. intros r Hr. apply filter_In in Hr.
    apply String.eqb_eq, Hr.
Qed.

(** What a merge that pandas accepts returns. *)
Lemma pandas_merge_ok left right df :
  pandas_merge left right = Ok df ->
  keys_incompatible left right = false /\
  subject_id_dtype df = subject_id_dtype left /\
  columns df = columns left ++ columns right /\
  rows df = join_rows (rows left) (rows right).
Proof.
  unfold pandas_merge. destruct (keys_incompatible left right);
    [discriminate|].
  intros H; inversion H; subst; simpl. auto.
Qed.

(** Two tables that both hold keys merge only when the keys are of one
    type. *)
Lemma keys_incompatible_false left right :
  keys_incompatible left right = false ->
  rows left <> [] -> rows right <> [] ->
  subject_id_dtype right = subject_id_dtype left.
Proof.
  unfold keys_incompatible. intros H Hl Hr.
  destruct (rows left); [congruence|]. destruct (rows right); [congruence|].
  destruct (subject_id_dtype left), (subject_id_dtype right);
    simpl in H; congruence.
Qed.

Lemma keys_compatible_alike left right :
  subject_id_dtype right = subject_id_dtype left ->
  keys_incompatible left right = false.
Proof.
  unfold keys_incompatible. intros ->.
  destruct (rows left); [reflexivity|]. destruct (rows right); [reflexivity|].
  destruct (subject_id_dtype left); reflexivity.
Qed.

(** A manifest that lists each subject once gives it one path. *)
Lemma manifest_path_unique (records : list (string * string)) s p p' :
  NoDup (map fst records) ->
  In (s, p) records -> In (s, p') records -> p = p'.
Proof.
  induction records as [|[s0 p0] records IH]; simpl; intros Hnd Hp Hp';
    [contradiction|].
  inversion Hnd as [|? ? Hnin Hnd']; subst.
  destruct Hp as [Hp|Hp], Hp' as [Hp'|Hp'].
  - congruence.
  - inversion Hp; subst. exfalso. apply Hnin.
    apply in_map_iff. exists (s, p'). auto.
  - inversion Hp'; subst. exfalso. apply Hnin.
    apply in_map_iff. exists (s, p). auto.
  - auto.
Qed.

Section ManifestMerge.
Context {Types : ExternalTypes} {Ext : External}.

(** What a manifest that loads looks like. *)
Lemma load_csv_list_ok data_param m t :
  load_csv_list data_param m = Ok t ->
  m <> "subject_id" /\
  subject_id_dtype t = manifest_dtype data_param m /\
  columns t = [m] /\
  rows t = map (fun rec => (fst rec, [snd rec])) (manifest_of data_param m).
Proof.
  unfold load_csv_list, manifest_of, manifest_dtype, pandas_read_csv.
  destruct (dict_get data_param m) as [section|]; [|discriminate].
  destruct (isfile (csv_file section)); simpl; [|discriminate].
  destruct (String.eqb_spec m "subject_id") as [->|Hne]; [discriminate|].
  intros H; inversion H; subst; simpl. repeat split; auto.
Qed.

Lemma load_csv_list_subject_ids data_param m t :
  load_csv_list data_param m = Ok t ->
  subject_ids t = map fst (manifest_of data_param m).
Proof.
  intros H. apply load_csv_list_ok in H. destruct H as [_ [_ [_ Hr]]].
  unfold subject_ids. rewrite Hr, map_map. reflexivity.
Qed.

Lemma load_csv_list_joined data_param m t :
  load_csv_list data_param m = Ok t -> joined data_param [m] t.
Proof.
  intros H. apply load_csv_list_ok in H. destruct H as [Hne [_ [Hc Hr]]].
  repeat split; [assumption|auto|].
  rewrite Hr. apply Forall_forall. intros row Hin.
  apply in_map_iff in Hin. destruct Hin as [[s p] [<- Hin]]. simpl.
  constructor; [exact Hin|constructor].
Qed.

Lemma pandas_merge_joined data_param names m left right df :
  joined data_param names left -> joined data_param [m] right ->
  pandas_merge left right = Ok df ->
  joined data_param (names ++ [m]) df.
Proof.
  intros [Hcl [Hnl Hrl]] [Hcr [Hnr Hrr]] Hm.
  apply pandas_merge_ok in Hm. destruct Hm as [_ [_ [Hc Hr]]].
  repeat split.
  - congruence.
  - apply Forall_app; auto.
  - rewrite Hr. apply Forall_forall. intros [s cells] Hin.
    apply join_rows_In in Hin. destruct Hin as [cl [cr [-> [Hl Hr']]]].
    rewrite Forall_forall in Hrl, Hrr.
    apply Forall2_app; [apply (Hrl _ Hl)|apply (Hrr _ Hr')].
Qed.

(** The loop keeps a table once it has one. *)
Lemma merge_csv_files_some data_param names : forall merged r,
  merge_csv_files data_param names (Some merged) = Ok r ->
  exists df, r = Some df.
Proof.
  induction names as [|m names IH]; simpl; intros merged r H.
  - inversion H; eauto.
  - destruct (load_csv_list data_param m) as [t|f]; [|discriminate].
    destruct (pandas_merge merged t) as [joined_list|f]; [|discriminate].
    eapply IH; eauto.
Qed.

(** What the loop of the merge, when it completes, has made of a table
    already joined over [done]. *)
Lemma merge_csv_files_run data_param names : forall done merged df,
  merge_csv_files data_param names (Some merged) = Ok (Some df) ->
  joined data_param done merged ->
  joined data_param (done ++ names) df /\
  (forall m, In m names -> exists t, load_csv_list data_param m = Ok t) /\
  (forall s, count_occ string_dec (subject_ids df) s =
             count_occ string_dec (subject_ids merged) s *
             fold_right (fun m acc => listed data_param m s * acc) 1 names) /\
  (forall s, In s (subject_ids df) <->
             In s (subject_ids merged) /\
             forall m, In m names -> In s (map fst (manifest_of data_param m))) /\
  subject_id_dtype df = subject_id_dtype merged /\
  (rows df <> [] ->
   forall m, In m names ->
             manifest_dtype data_param m = subject_id_dtype merged) /\
  (NoDup (subject_ids merged) ->
   (forall m, In m names -> NoDup (map fst (manifest_of data_param m))) ->
   subject_ids df =
   filter (fun s => forallb (fun t => str_in s (map fst t))
                            (map (manifest_of data_param) names))
          (subject_ids merged)).
Proof.
  induction names as [|m names IH]; intros done merged df H Hj.
  - simpl in H. inversion H; subst df. simpl. rewrite app_nil_r.
    split; [exact Hj|]. split; [intros m []|]. split; [intros s; lia|].
    split; [intros s; split; [intros Hs; split; [exact Hs|contradiction]|tauto]|].
    split; [reflexivity|]. split; [intros _ m []|].
    intros _ _. induction (subject_ids merged) as [|s l IHl]; simpl; congruence.
  - simpl in H.
    destruct (load_csv_list data_param m) as [t|f] eqn:Ht; [|discriminate].
    destruct (pandas_merge merged t) as [mt|f] eqn:Hmt; [|discriminate].
    pose proof (pandas_merge_joined _ _ _ _ _ _ Hj
                  (load_csv_list_joined _ _ _ Ht) Hmt) as Hjm.
    destruct (IH (done ++ [m]) mt df H Hjm)
      as [Hjd [Hload [Hcount [Hin [Hdt [Htyped Heq]]]]]].
    pose proof (pandas_merge_ok _ _ _ Hmt) as [Hcompat [Hdtm [_ Hrows]]].
    assert (Hids : subject_ids mt
                   = map fst (join_rows (rows merged) (rows t)))
      by (unfold subject_ids; rewrite Hrows; reflexivity).
    assert (Hidt : map fst (rows t) = map fst (manifest_of data_param m))
      by (apply (load_csv_list_subject_ids _ _ _ Ht)).
    rewrite <- app_assoc in Hjd. simpl in Hjd.
    split; [exact Hjd|]. split.
    { intros m' [<-|Hm']; [eauto|auto]. }
    split.
    { intros s. rewrite Hcount, Hids, join_rows_count, Hidt. simpl.
      unfold listed, subject_ids. rewrite Nat.mul_assoc. reflexivity. }
    split.
    { intros s. rewrite Hin, Hids, join_rows_ids_In, Hidt.
      unfold subject_ids. split.
      - intros [[Hm Ht'] Hrest]. split; [assumption|].
        intros m' [<-|Hm']; auto.
      - intros [Hm Hall]. split; [split; [exact Hm|apply Hall; left; reflexivity]|].
        intros m' Hm'. apply Hall; right; exact Hm'. }
    split; [congruence|]. split.
    { intros Hne m' Hm'.
      assert (Hmtne : rows mt <> []).
      { destruct (rows df) as [|[s c] rest] eqn:Hr; [congruence|].
        assert (Hs : In s (subject_ids mt)).
        { apply (proj1 (Hin s)). unfold subject_ids. rewrite Hr. simpl; auto. }
        unfold subject_ids in Hs. intros Hnil. rewrite Hnil in Hs. exact Hs. }
      destruct Hm' as [<-|Hm'].
      - destruct (load_csv_list_ok _ _ _ Ht) as [_ [Hdtt _]].
        rewrite <- Hdtt. apply keys_incompatible_false; [exact Hcompat| |].
        + intros Hnil. apply Hmtne. rewrite Hrows, Hnil. reflexivity.
        + intros Hnil. apply Hmtne. rewrite Hrows, Hnil.
          apply join_rows_nil_r.
      - rewrite (Htyped Hne m' Hm'). exact Hdtm. }
    intros Hnd Hall.
    assert (Hndt : NoDup (map fst (rows t))).
    { rewrite Hidt. apply Hall; left; reflexivity. }
    assert (Hmids : subject_ids mt =
                    filter (fun s => str_in s (map fst (manifest_of data_param m)))
                           (subject_ids merged)).
    { rewrite Hids, <- Hidt. apply join_rows_ids_distinct; assumption. }
    rewrite Heq.
    + rewrite Hmids. simpl. apply filter_filter_andb.
    + rewrite Hmids. apply NoDup_filter. exact Hnd.
    + intros m' Hm'. apply Hall; right; exact Hm'.
Qed.

(** The loop completes from a table when the manifests to come load and
    have key columns of the table's type. *)
Lemma merge_csv_files_total data_param names : forall merged,
  (forall m, In m names -> exists t, load_csv_list data_param m = Ok t) ->
  (forall m, In m names ->
             manifest_dtype data_param m = subject_id_dtype merged) ->
  exists df, merge_csv_files data_param names (Some merged) = Ok (Some df).
Proof.
  induction names as [|m names IH]; intros merged Hload Hdt; simpl; [eauto|].
  destruct (Hload m (or_introl eq_refl)) as [t Ht]. rewrite Ht.
  destruct (load_csv_list_ok _ _ _ Ht) as [_ [Hdtt _]].
  unfold pandas_merge.
  rewrite keys_compatible_alike by (rewrite Hdtt; apply Hdt; left; reflexivity).
  apply IH.
  - intros m' Hm'. apply Hload; right; exact Hm'.
  - intros m' Hm'. simpl. apply Hdt; right; exact Hm'.
Qed.

(** The whole loop, when it completes. *)
Lemma merge_csv_files_all data_param m names df :
  keys data_param = m :: names ->
  merge_csv_files data_param (keys data_param) None = Ok (Some df) ->
  joined data_param (keys data_param) df /\
  (forall m', In m' (keys data_param) ->
              exists t, load_csv_list data_param m' = Ok t) /\
  (forall s, count_occ string_dec (subject_ids df) s
             = rows_per_subject data_param s) /\
  (forall s, In s (subject_ids df) <->
             forall m', In m' (keys data_param) ->
                        In s (map fst (manifest_of data_param m'))) /\
  (rows df <> [] -> keys_typed_alike data_param) /\
  ((forall m', In m' (keys data_param) ->
               NoDup (map fst (manifest_of data_param m'))) ->
   subject_ids df =
   common_subject_ids (map (manifest_of data_param) (keys data_param))).
Proof.
  intros Hk H. unfold rows_per_subject, keys_typed_alike. rewrite Hk in *.
  simpl in H.
  destruct (load_csv_list data_param m) as [t|f] eqn:Ht; [|discriminate].
  destruct (merge_csv_files_run data_param names [m] t df H
              (load_csv_list_joined _ _ _ Ht))
    as [Hj [Hload [Hcount [Hin [Hdt [Htyped Heq]]]]]].
  pose proof (load_csv_list_subject_ids _ _ _ Ht) as Hids.
  destruct (load_csv_list_ok _ _ _ Ht) as [_ [Hdtt _]].
  split; [exact Hj|]. split.
  { intros m' [<-|Hm']; [eauto|auto]. }
  split.
  { intros s. rewrite Hcount, Hids. reflexivity. }
  split.
  { intros s. rewrite Hin, Hids. split.
    - intros [H0 Hrest] m' [<-|Hm']; auto.
    - intros Hall. split; [apply Hall; left; reflexivity|].
      intros m' Hm'; apply Hall; right; exact Hm'. }
  split.
  { intros Hne.
    assert (Hall : forall m', In m' (m :: names) ->
               manifest_dtype data_param m' = subject_id_dtype t).
    { intros m' [<-|Hm']; [symmetry; exact Hdtt|apply (Htyped Hne m' Hm')]. }
    intros m1 m2 H1 H2. rewrite (Hall m1 H1), (Hall m2 H2). reflexivity. }
  intros Hnd. rewrite Hids in Heq. simpl. apply Heq.
  - apply Hnd; left; reflexivity.
  - intros m' Hm'; apply Hnd; right; exact Hm'.
Qed.

(** The whole loop completes when every manifest loads and the key
    columns are of one type. *)
Lemma merge_csv_files_all_total data_param m names :
  keys data_param = m :: names ->
  (forall m', In m' (keys data_param) ->
              exists t, load_csv_list data_param m' = Ok t) ->
  keys_typed_alike data_param ->
  exists df, merge_csv_files data_param (keys data_param) None = Ok (Some df).
Proof.
  intros Hk Hload Htyped. unfold keys_typed_alike in Htyped. rewrite Hk in *.
  simpl. destruct (Hload m (or_introl eq_refl)) as [t Ht]. rewrite Ht.
  destruct (load_csv_list_ok _ _ _ Ht) as [_ [Hdtt _]].
  apply merge_csv_files_total.
  - intros m' Hm'. apply Hload; right; exact Hm'.
  - intros m' Hm'. rewrite Hdtt. apply Htyped; simpl; auto.
Qed.

(** A table the merge returns has at least one row. *)
Lemma _load_and_merge_csv_files_rows data_param df :
  _load_and_merge_csv_files data_param = Ok df -> rows df <> [].
Proof.
  unfold _load_and_merge_csv_files.
  destruct (merge_csv_files _ _ _) as [[fl|]|f]; try discriminate.
  destruct (Nat.eqb_spec (df_size fl) 0) as [|Hne]; [discriminate|].
  intros H; inversion H; subst. intros Hr. apply Hne.
  unfold df_size. rewrite Hr. reflexivity.
Qed.

(** When the loop completes on a table with a row, the merge returns
    it. *)
Lemma _load_and_merge_csv_files_returns data_param df :
  merge_csv_files data_param (keys data_param) None = Ok (Some df) ->
  rows df <> [] ->
  _load_and_merge_csv_files data_param = Ok df.
Proof.
  intros Hm Hrows. unfold _load_and_merge_csv_files. rewrite Hm.
  destruct (Nat.eqb_spec (df_size df) 0) as [Hz|]; [|reflexivity].
  exfalso. unfold df_size in Hz. destruct (rows df); [congruence|].
  simpl in Hz. lia.
Qed.

(** Reading a cell of a joined table under a modality's label. *)
Lemma df_loc_joined data_param names df row_id s cells m :
  joined data_param names df ->
  nth_error (rows df) row_id = Some (s, cells) ->
  In m names ->
  exists p, df_loc df row_id m = Ok p /\ In (s, p) (manifest_of data_param m).
Proof.
  intros [Hc [Hn Hr]] Hrow Hm. unfold df_loc. rewrite Hrow, Hc.
  rewrite Forall_forall in Hn. specialize (Hn m Hm).
  destruct (String.eqb_spec m "subject_id") as [|_]; [contradiction|].
  destruct (index_of_In _ _ Hm) as [j [Hj Hnth]]. rewrite Hj.
  rewrite Forall_forall in Hr. apply nth_error_In in Hrow.
  specialize (Hr _ Hrow). simpl in Hr.
  destruct (Forall2_nth_error_l _ _ _ _ _ Hr Hnth) as [p [Hp Hin]].
  rewrite Hp. eauto.
Qed.

(** C1, as the code has it.  When every modality's manifest loads and
    lists each subject once, the key columns are of one type, and some
    subject is listed by all manifests, the merge returns a table whose
    labels are the modality names in first-seen order, whose rows are
    exactly the common subject identifiers, once each, and whose cell
    under a modality's label is the one path which that modality's
    manifest gives for the row's subject. *)
Theorem _load_and_merge_csv_files_join (data_param : dict ModalityParam) :
  (forall m, In m (keys data_param) ->
             exists t, load_csv_list data_param m = Ok t) ->
  (forall m, In m (keys data_param) ->
             NoDup (map fst (manifest_of data_param m))) ->
  keys_typed_alike data_param ->
  common_subject_ids (map (manifest_of data_param) (keys data_param)) <> [] ->
  exists df,
    _load_and_merge_csv_files data_param = Ok df /\
    columns df = keys data_param /\
    subject_ids df =
      common_subject_ids (map (manifest_of data_param) (keys data_param)) /\
    NoDup (subject_ids df) /\
    (forall s, In s (subject_ids df) <->
               forall m, In m (keys data_param) ->
                         In s (map fst (manifest_of data_param m))) /\
    (forall row_id s cells m,
       nth_error (rows df) row_id = Some (s, cells) ->
       In m (keys data_param) ->
       exists p, df_loc df row_id m = Ok p /\
                 In (s, p) (manifest_of data_param m) /\
                 forall p', In (s, p') (manifest_of data_param m) -> p' = p).
Proof.
  intros Hload Hnd Htyped Hcommon.
  destruct (keys data_param) as [|m names] eqn:Hk; [simpl in Hcommon; congruence|].
  rewrite <- Hk in *.
  destruct (merge_csv_files_all_total data_param m names Hk Hload Htyped)
    as [df Hdf].
  destruct (merge_csv_files_all data_param m names df Hk Hdf)
    as [Hj [_ [_ [Hin [_ Heq]]]]].
  specialize (Heq Hnd). exists df.
  assert (Hrows : rows df <> []).
  { intros Hr. apply Hcommon. rewrite <- Heq. unfold subject_ids.
    rewrite Hr. reflexivity. }
  split; [apply _load_and_merge_csv_files_returns; assumption|].
  split; [apply Hj|]. split; [exact Heq|]. split.
  { rewrite Heq, Hk. simpl. apply NoDup_filter. apply Hnd.
    rewrite Hk; left; reflexivity. }
  split; [exact Hin|].
  intros row_id s cells m' Hrow Hm'.
  destruct (df_loc_joined data_param _ df row_id s cells m' Hj Hrow Hm')
    as [p [Hloc Hp]].
  exists p. split; [exact Hloc|]. split; [exact Hp|].
  intros p' Hp'. apply (manifest_path_unique _ s p' p (Hnd m' Hm') Hp' Hp).
Qed.


End ManifestMerge.

(** * The volume catalog *)

Lemma list_comp_dichotomy {A B : Type} (f : A -> result B) (e : failure) l :
  (forall x, In x l -> (exists y, f x = Ok y) \/ f x = Err e) ->
  (exists ys, list_comp f l = Ok ys) \/ list_comp f l = Err e.
Proof.
  induction l as [|x l IH]; simpl; intros Hall; [eauto|].
  destruct (Hall x (or_introl eq_refl)) as [[y Hy]|He].
  - rewrite Hy. destruct IH as [[ys Hys]|Hl]; [auto| |].
    + rewrite Hys; eauto.
    + rewrite Hl; auto.
  - rewrite He; auto.
Qed.

Section Catalog.
Context {Types : ExternalTypes} {Ext : External}.

Lemma dict_item_dichotomy {V W : Type} (d : dict V) (g : V -> W) k :
  (exists y, (section <- dict_item d k ;; Ok (g section))%result = Ok y) \/
  (section <- dict_item d k ;; Ok (g section))%result = raise KeyError.
Proof.
  unfold dict_item, rbind. destruct (dict_get d k); eauto.
Qed.

Lemma df_loc_dichotomy fl idx col :
  (exists c, df_loc fl idx col = Ok c) \/ df_loc fl idx col = raise KeyError.
Proof.
  unfold df_loc. destruct (nth_error (rows fl) idx) as [[sid cells]|]; [|auto].
  destruct (String.eqb col "subject_id"); [eauto|].
  destruct (index_of col (columns fl)) as [j|]; [|auto].
  destruct (nth_error cells j); eauto.
Qed.

(** With a manifest in place, the [try] either builds the four tuples
    or stops on a [KeyError]. *)
Lemma image_tuples_dichotomy self idx modalities data_param fl :
  _file_list self = Some fl ->
  (exists t, image_tuples self idx modalities data_param = Ok t) \/
  image_tuples self idx modalities data_param = raise KeyError.
Proof.
  intros Hfl. unfold image_tuples. rewrite Hfl.
  destruct (list_comp_dichotomy (fun mod_ => df_loc fl idx mod_)
              (Failure None KeyError) (py_iter modalities)) as [[ps Hps]|He];
    [intros; apply df_loc_dichotomy| |rewrite He; auto].
  rewrite Hps. unfold rbind at 1.
  destruct (list_comp_dichotomy
              (fun mod_ => (section <- dict_item data_param mod_ ;;
                            Ok (interp_order section))%result)
              (Failure None KeyError) (py_iter modalities)) as [[os Hos]|He];
    [intros; apply dict_item_dichotomy| |rewrite He; auto].
  rewrite Hos. unfold rbind at 1.
  destruct (list_comp_dichotomy
              (fun mod_ => (section <- dict_item data_param mod_ ;;
                            Ok (pixdim section))%result)
              (Failure None KeyError) (py_iter modalities)) as [[xs Hxs]|He];
    [intros; apply dict_item_dichotomy| |rewrite He; auto].
  rewrite Hxs. unfold rbind at 1.
  destruct (list_comp_dichotomy
              (fun mod_ => (section <- dict_item data_param mod_ ;;
                            Ok (axcodes section))%result)
              (Failure None KeyError) (py_iter modalities)) as [[cs Hcs]|He];
    [intros; apply dict_item_dichotomy| |rewrite He; auto].
  rewrite Hcs. simpl. eauto.
Qed.

Lemma _create_image_dichotomy self idx modalities data_param fl :
  _file_list self = Some fl ->
  (exists image, _create_image self idx modalities data_param = Ok image) \/
  _create_image self idx modalities data_param = Err UnknownModality.
Proof.
  intros Hfl. unfold _create_image.
  destruct (image_tuples_dichotomy self idx modalities data_param fl Hfl)
    as [[[[[ps os] xs] cs] Ht]|He].
  - rewrite Ht. eauto.
  - rewrite He. auto.
Qed.

(** A modality name without a section stops the [try] on a [KeyError],
    which [_create_image] logs and lets escape. *)
Lemma _create_image_unknown self idx modalities data_param fl mod_ :
  _file_list self = Some fl ->
  In mod_ (py_iter modalities) ->
  dict_get data_param mod_ = None ->
  _create_image self idx modalities data_param = Err UnknownModality.
Proof.
  intros Hfl Hin Hnone.
  assert (Ht : image_tuples self idx modalities data_param = raise KeyError).
  { unfold image_tuples. rewrite Hfl.
    destruct (list_comp_dichotomy (fun mod_ => df_loc fl idx mod_)
                (Failure None KeyError) (py_iter modalities)) as [[ps Hps]|He];
      [intros; apply df_loc_dichotomy| |rewrite He; reflexivity].
    rewrite Hps. unfold rbind at 1.
    rewrite (list_comp_fails _ (Failure None KeyError)); [reflexivity| |].
    - intros; apply dict_item_dichotomy.
    - exists mod_. split; [exact Hin|].
      unfold dict_item. rewrite Hnone. reflexivity. }
  unfold _create_image. rewrite Ht. reflexivity.
Qed.

(** The dictionary of a row, when it is built, has the fields of
    [input_sources]: at least one, each once. *)
Lemma row_dict_ok self row_id data_param entry :
  row_dict self row_id data_param = Ok entry ->
  entry <> [] /\ well_formed_dict entry /\
  exists sources, input_sources self = Ok sources /\
                  forall field, In field (keys entry) <-> In field (keys sources).
Proof.
  unfold row_dict. destruct (input_sources self) as [sources|f] eqn:Hs;
    [|discriminate].
  unfold rbind at 1. intros Hd. apply dict_comp_ok in Hd.
  destruct Hd as [Hkeys [_ [Hwf Hne]]].
  split; [|split; [exact Hwf|eauto]].
  apply Hne. unfold input_sources in Hs.
  destruct (_input_sources self) as [[|e d]|]; try discriminate.
  inversion Hs; subst. discriminate.
Qed.

Lemma _filename_to_image_list_ok self data_param fl volume_list :
  _file_list self = Some fl ->
  _filename_to_image_list self data_param = Ok volume_list ->
  length volume_list = df_len fl /\
  Forall (fun entry => entry <> [] /\ well_formed_dict entry) volume_list.
Proof.
  intros Hfl. unfold _filename_to_image_list. rewrite Hfl. intros H.
  apply list_comp_ok in H. split.
  - apply Forall2_length in H. rewrite length_seq in H. auto.
  - induction H as [|row_id entry ? ? Hrow _ IH]; constructor; [|exact IH].
    apply row_dict_ok in Hrow. tauto.
Qed.

(** The build over a manifest with at least one row stops at the first
    row when a field of [input_sources] names a modality without a
    section. *)
Lemma _filename_to_image_list_stops self data_param fl sources
      field modalities mod_ :
  rows fl <> [] ->
  _file_list self = Some fl ->
  _input_sources self = Some sources ->
  dict_get sources field = Some modalities ->
  In mod_ (py_iter modalities) ->
  dict_get data_param mod_ = None ->
  _filename_to_image_list self data_param = Err UnknownModality.
Proof.
  intros Hrows Hfl Hsrc Hfield Hin Hnone.
  unfold _filename_to_image_list. rewrite Hfl.
  unfold df_len. destruct (rows fl) as [|row rest]; [congruence|].
  simpl length. simpl seq. apply list_comp_first_fails.
  assert (Hs : input_sources self = Ok sources).
  { unfold input_sources. rewrite Hsrc.
    destruct sources; [discriminate|reflexivity]. }
  unfold row_dict. rewrite Hs. unfold rbind at 1.
  unfold dict_comp.
  rewrite (list_comp_fails _ UnknownModality); [reflexivity| |].
  - intros k Hk. apply dict_get_keys in Hk. destruct Hk as [v Hv].
    cbv beta. unfold rbind, dict_item. rewrite ?Hs, Hv.
    destruct (_create_image_dichotomy self 0 v data_param fl Hfl)
      as [[image Hi]|He]; rewrite ?Hi, ?He; eauto.
  - exists field. split.
    + apply dict_get_keys; eauto.
    + cbv beta. unfold rbind, dict_item. rewrite ?Hs, Hfield.
      rewrite (_create_image_unknown self 0 modalities data_param fl mod_);
        auto.
Qed.

(** C5. In a catalog build over a merged manifest, a field of
    [input_sources] whose modalities include a name that has no section
    in the properties table makes every descriptor construction for that
    field fail with the unknown-modality condition, and the build as a
    whole fails with it: no catalog is returned. *)
Theorem _filename_to_image_list_unknown_modality
        (self : ImageReader) (data_param : dict ModalityParam)
        (fl : DataFrame) (sources : dict pyval)
        (field : string) (modalities : pyval) (mod_ : string) :
  _load_and_merge_csv_files data_param = Ok fl ->
  _file_list self = Some fl ->
  _input_sources self = Some sources ->
  dict_get sources field = Some modalities ->
  In mod_ (py_iter modalities) ->
  dict_get data_param mod_ = None ->
  (forall idx, _create_image self idx modalities data_param
               = Err UnknownModality) /\
  _filename_to_image_list self data_param = Err UnknownModality.
Proof.
  intros Hmerge Hfl Hsrc Hfield Hin Hnone. split.
  - intros idx. eapply _create_image_unknown; eauto.
  - apply _load_and_merge_csv_files_rows in Hmerge.
    eapply _filename_to_image_list_stops; eauto.
Qed.

End Catalog.

(** * Initialisation *)

Section Initialisation.
Context {Types : ExternalTypes} {Ext : External}.

(** [initialise_reader], statement by statement. *)
Lemma initialise_reader_eq data_param task_param self :
  initialise_reader data_param task_param self =
  match dict_item task_param "name" with
  | Err f => (Err f, self)
  | Ok app_type =>
      match _load_and_merge_csv_files data_param with
      | Err f => (Err f, self)
      | Ok fl =>
          match candidate_fields app_type self with
          | None => (Err UnsupportedApplication, set_file_list self (Some fl))
          | Some candidates =>
              let fields := chosen_fields task_param candidates in
              let self3 :=
                mkImageReader (Some fl) fields (_input_sources self)
                              (_shapes self) (_dtypes self)
                              (output_list self) (current_id self) in
              match dict_comp (fun field => dict_item task_param field) fields with
              | Err f => (Err f, self3)
              | Ok sources =>
                  let self4 := set_input_sources self3 (Some sources) in
                  match _filename_to_image_list self4 data_param with
                  | Err f => (Err f, self4)
                  | Ok volume_list =>
                      let self6 :=
                        set_current_id
                          (set_output_list self4 (Some volume_list))
                          (Some (-1)%Z) in
                      match input_sources self6 with
                      | Err f => (Err f, self6)
                      | Ok _ => (Ok tt, self6)
                      end
                  end
              end
          end
      end
  end.
Proof.
  unfold initialise_reader, bind, lift, modify, get, throw, ret,
    candidate_fields.
  destruct (dict_item task_param "name") as [app_type|f]; [|reflexivity].
  destruct (_load_and_merge_csv_files data_param) as [fl|f]; [|reflexivity].
  destruct self as [fl0 fields0 src0 sh0 dt0 ol0 cur0].
  unfold set_file_list, set_output_fields, set_input_sources,
    set_output_list, set_current_id; simpl.
  destruct fields0 as [|field0 fields0]; simpl.
  - destruct (supported_input app_type) as [supported|]; [|reflexivity].
    simpl. rewrite !make_input_tuple_seq.
    destruct (dict_comp _ _) as [sources|f]; [|reflexivity]. simpl.
    destruct (_filename_to_image_list _ _) as [volume_list|f]; [|reflexivity].
    simpl. destruct (input_sources _); reflexivity.
  - rewrite !make_input_tuple_seq.
    destruct (dict_comp _ _) as [sources|f]; [|reflexivity]. simpl.
    destruct (_filename_to_image_list _ _) as [volume_list|f]; [|reflexivity].
    simpl. destruct (input_sources _); reflexivity.
Qed.

(** What a successful initialisation went through. *)
Lemma initialise_reader_ok data_param task_param self self' :
  initialise_reader data_param task_param self = (Ok tt, self') ->
  exists app_type fl candidates sources volume_list,
    dict_get task_param "name" = Some app_type /\
    _load_and_merge_csv_files data_param = Ok fl /\
    candidate_fields app_type self = Some candidates /\
    dict_comp (fun field => dict_item task_param field)
              (chosen_fields task_param candidates) = Ok sources /\
    sources <> [] /\
    _filename_to_image_list
      (mkImageReader (Some fl) (chosen_fields task_param candidates)
                     (Some sources) (_shapes self) (_dtypes self)
                     (output_list self) (current_id self))
      data_param = Ok volume_list /\
    self' = mkImageReader (Some fl) (chosen_fields task_param candidates)
                          (Some sources) (_shapes self) (_dtypes self)
                          (Some volume_list) (Some (-1)%Z).
Proof.
  rewrite initialise_reader_eq. unfold dict_item at 1.
  destruct (dict_get task_param "name") as [app_type|]; [|discriminate].
  destruct (_load_and_merge_csv_files data_param) as [fl|f]; [|discriminate].
  destruct (candidate_fields app_type self) as [candidates|] eqn:Hc;
    [|discriminate].
  cbv zeta.
  destruct (dict_comp _ _) as [sources|f] eqn:Hsrc; [|discriminate].
  unfold set_input_sources; simpl.
  destruct (_filename_to_image_list _ _) as [volume_list|f] eqn:Hvl;
    [|discriminate].
  unfold set_current_id, set_output_list, input_sources; simpl.
  destruct sources as [|e sources]; [discriminate|].
  intros H; inversion H; subst.
  exists app_type, fl, candidates, (e :: sources), volume_list.
  split; [reflexivity|]. split; [reflexivity|]. split; [exact Hc|].
  split; [exact Hsrc|]. split; [discriminate|]. split; [exact Hvl|reflexivity].
Qed.

Lemma ne_empty_tuple_true v : ne_empty_tuple v = true <-> v <> PTuple [].
Proof.
  destruct v as [s|[|m t]]; simpl; split; intros H;
    congruence || discriminate || reflexivity.
Qed.

Lemma chosen_fields_In task_param candidates field :
  In field (chosen_fields task_param candidates) <->
  In field candidates /\
  exists v, dict_get task_param field = Some v /\ v <> PTuple [].
Proof.
  unfold chosen_fields. rewrite filter_In, andb_true_iff, str_in_In.
  split.
  - intros [_ [Hc Hv]].
    destruct (dict_get task_param field) as [v|]; [|discriminate].
    split; [exact Hc|]. exists v. split; [reflexivity|].
    apply ne_empty_tuple_true; exact Hv.
  - intros [Hc [v [Hget Hv]]]. split; [apply dict_get_keys; eauto|].
    split; [exact Hc|]. rewrite Hget. apply ne_empty_tuple_true; exact Hv.
Qed.

(** A successful initialisation leaves a built catalog, one entry per
    manifest row, and the cursor at -1. *)
Lemma initialise_reader_catalog data_param task_param self self' :
  initialise_reader data_param task_param self = (Ok tt, self') ->
  exists volume_list,
    output_list self' = Some volume_list /\
    volume_list <> [] /\
    Forall (fun entry => entry <> [] /\ well_formed_dict entry) volume_list /\
    current_id self' = Some (-1)%Z.
Proof.
  intros H. apply initialise_reader_ok in H.
  destruct H as [app [fl [cands [srcs [vl [_ [Hfl [_ [_ [_ [Hvl ->]]]]]]]]]]].
  exists vl. simpl.
  apply (_filename_to_image_list_ok _ _ fl) in Hvl; [|reflexivity].
  destruct Hvl as [Hlen Hall].
  repeat split; auto.
  apply _load_and_merge_csv_files_rows in Hfl. intros ->.
  unfold df_len in Hlen. destruct (rows fl); [congruence|discriminate].
Qed.

(** The failure of the catalog build is the failure of the
    initialisation, which leaves the reader's catalog and cursor as they
    were. *)
Lemma initialise_reader_unknown_modality
      data_param task_param self app_type fl candidates field modalities mod_ :
  dict_get task_param "name" = Some app_type ->
  _load_and_merge_csv_files data_param = Ok fl ->
  candidate_fields app_type self = Some candidates ->
  In field (chosen_fields task_param candidates) ->
  dict_get task_param field = Some modalities ->
  In mod_ (py_iter modalities) ->
  dict_get data_param mod_ = None ->
  fst (initialise_reader data_param task_param self) = Err UnknownModality /\
  output_list (snd (initialise_reader data_param task_param self))
    = output_list self /\
  current_id (snd (initialise_reader data_param task_param self))
    = current_id self.
Proof.
  intros Hname Hfl Hc Hchosen Hfield Hin Hnone.
  pose proof (initialise_reader_eq data_param task_param self) as Heq.
  unfold dict_item at 1 in Heq. rewrite Hname, Hfl, Hc in Heq.
  cbv zeta in Heq.
  destruct (dict_comp _ _) as [sources|f] eqn:Hsrc.
  - pose proof (dict_comp_ok _ _ _ Hsrc) as [Hkeys [Hget _]].
    apply Hkeys, dict_get_keys in Hchosen. destruct Hchosen as [v Hv].
    destruct (Hget _ _ Hv) as [_ Hitem]. unfold dict_item in Hitem.
    rewrite Hfield in Hitem. inversion Hitem; subst v.
    rewrite (_filename_to_image_list_stops _ data_param fl sources
               field modalities mod_) in Heq; auto.
    + rewrite Heq. simpl. auto.
    + apply (_load_and_merge_csv_files_rows _ _ Hfl).
  - exfalso. unfold dict_comp, rbind in Hsrc.
    rewrite (list_comp_total _ (fun k => (k, match dict_get task_param k with
                                             | Some v => v
                                             | None => PTuple []
                                             end))) in Hsrc; [discriminate|].
    intros k Hk. apply chosen_fields_In in Hk.
    destruct Hk as [_ [v [Hv _]]]. unfold dict_item. rewrite Hv. reflexivity.
Qed.

(** C3, as the code has it.  With an application name that binds no
    supported-field set and a reader that holds no output field of its
    own, the initialisation fails: once the manifests are merged it stops
    on the unbound [SUPPORTED_INPUT], and before that on whatever the
    merge raised.  (A reader that holds output fields never looks at
    [SUPPORTED_INPUT].) *)
Theorem initialise_reader_unsupported_application
        (data_param : dict ModalityParam) (task_param : dict pyval)
        (self : ImageReader) (app_type : pyval) :
  dict_get task_param "name" = Some app_type ->
  supported_input app_type = None ->
  _output_fields self = [] ->
  fst (initialise_reader data_param task_param self) =
  match _load_and_merge_csv_files data_param with
  | Ok _ => Err UnsupportedApplication
  | Err f => Err f
  end.
Proof.
  intros Hname Hsup Hfields. rewrite initialise_reader_eq.
  unfold dict_item, candidate_fields. rewrite Hname, Hfields, Hsup.
  destruct (_load_and_merge_csv_files data_param); reflexivity.
Qed.

(** C7, as the code has it.  After a successful initialisation the
    output fields are exactly the field names of the specification that
    are in the candidate list (the reader's own output fields when it was
    given some, otherwise the application's supported set) and are bound
    to something other than the empty tuple; [input_sources] has exactly
    these fields as keys and maps each to what the specification binds
    it to. *)
Theorem initialise_reader_fields
        (data_param : dict ModalityParam) (task_param : dict pyval)
        (self self' : ImageReader) :
  initialise_reader data_param task_param self = (Ok tt, self') ->
  exists app_type candidates sources,
    dict_get task_param "name" = Some app_type /\
    (_output_fields self <> [] /\ candidates = _output_fields self \/
     _output_fields self = [] /\ supported_input app_type = Some candidates) /\
    (forall field,
       In field (_output_fields self') <->
       In field candidates /\
       exists v, dict_get task_param field = Some v /\ v <> PTuple []) /\
    NoDup (keys sources) /\
    input_sources self' = Ok sources /\
    (forall field, In field (keys sources) <-> In field (_output_fields self')) /\
    (forall field,
       In field (_output_fields self') ->
       exists v, dict_get sources field = Some v /\
                 dict_get task_param field = Some v /\ v <> PTuple []).
Proof.
  intros H. apply initialise_reader_ok in H.
  destruct H as [app [fl [cands [srcs [vl [Hname [_ [Hc [Hsrc [Hne [_ ->]]]]]]]]]]].
  exists app, cands, srcs. simpl.
  apply dict_comp_ok in Hsrc. destruct Hsrc as [Hkeys [Hget [Hwf _]]].
  split; [exact Hname|]. split.
  { unfold candidate_fields in Hc.
    destruct (_output_fields self) as [|f0 fs] eqn:Hf.
    - right; auto.
    - left. split; [discriminate|congruence]. }
  split; [intros field; apply chosen_fields_In|].
  split; [exact Hwf|]. split.
  { unfold input_sources; simpl. destruct srcs; [congruence|reflexivity]. }
  split; [exact Hkeys|].
  intros field Hin. pose proof Hin as Hin'.
  apply Hkeys, dict_get_keys in Hin. destruct Hin as [v Hv].
  destruct (Hget _ _ Hv) as [_ Hitem]. unfold dict_item in Hitem.
  apply chosen_fields_In in Hin'. destruct Hin' as [_ [v' [Hv' Hnonempty]]].
  rewrite Hv' in Hitem. inversion Hitem; subst. eauto.
Qed.

End Initialisation.

(** * The two access modes *)

Lemma py_getitem_in_range {A : Type} (l : list A) (idx : Z) :
  (0 <= idx < Z.of_nat (length l))%Z ->
  exists x, nth_error l (Z.to_nat idx) = Some x /\ py_getitem l idx = Ok x.
Proof.
  intros Hr. unfold py_getitem.
  destruct (Z.ltb_spec idx 0) as [Hneg|_]; [lia|].
  destruct (Z.leb_spec 0 idx) as [_|Hneg]; [|lia].
  destruct (Z.ltb_spec idx (Z.of_nat (length l))) as [_|Hbig]; [|lia].
  simpl. destruct (nth_error l (Z.to_nat idx)) as [x|] eqn:Hx; [eauto|].
  apply nth_error_None in Hx. lia.
Qed.

Lemma np_random_randint_range (rnd high : Z) :
  (0 < high)%Z ->
  np_random_randint rnd high = Ok (rnd mod high)%Z /\
  (0 <= rnd mod high < high)%Z.
Proof.
  intros Hh. unfold np_random_randint.
  destruct (Z.leb_spec high 0) as [Hle|_]; [lia|].
  split; [reflexivity|]. apply Z.mod_pos_bound; exact Hh.
Qed.

Section Access.
Context {Types : ExternalTypes} {Ext : External}.

(** The decoded bundle of a well-formed entry: each field with the data
    of its image. *)
Lemma image_data_dict_map (entry : dict Image) :
  well_formed_dict entry ->
  image_data_dict entry = map (fun fi => (fst fi, get_data (snd fi))) entry.
Proof.
  intros Hwf. unfold image_data_dict. apply dict_of_pairs_distinct.
  rewrite map_map. simpl. exact Hwf.
Qed.

(** A shuffled call on a non-empty catalog. *)
Lemma layer_op_shuffle self volume_list rnd :
  output_list self = Some volume_list ->
  volume_list <> [] ->
  exists idx entry,
    (0 <= idx < Z.of_nat (length volume_list))%Z /\
    nth_error volume_list (Z.to_nat idx) = Some entry /\
    layer_op rnd true self =
    (Ok match entry with
        | [] => (None, None)
        | _ :: _ => (Some idx, Some (image_data_dict entry))
        end, self).
Proof.
  intros Hol Hne.
  assert (Hlen : (0 < Z.of_nat (length volume_list))%Z).
  { destruct volume_list; [congruence|simpl; lia]. }
  destruct (np_random_randint_range rnd _ Hlen) as [Hrand Hrange].
  destruct (py_getitem_in_range volume_list _ Hrange) as [entry [Hnth Hget]].
  exists (rnd mod Z.of_nat (length volume_list))%Z, entry.
  split; [exact Hrange|]. split; [exact Hnth|].
  unfold layer_op, select, bind, get, lift, ret. rewrite Hol.
  rewrite Hrand, Hget. destruct entry; reflexivity.
Qed.

(** A shuffled call leaves the reader as it was, however it ends. *)
Lemma layer_op_shuffle_frame self rnd : snd (layer_op rnd true self) = self.
Proof.
  unfold layer_op, select, bind, get, lift, ret.
  destruct (output_list self) as [volume_list|]; [|reflexivity].
  destruct (np_random_randint rnd _) as [idx|f]; [|reflexivity].
  destruct (py_getitem volume_list idx) as [[|e entry]|f]; reflexivity.
Qed.

(** A sequential call on a reader with a cursor and a catalog. *)
Lemma layer_op_sequential self volume_list current rnd :
  current_id self = Some current ->
  output_list self = Some volume_list ->
  layer_op rnd false self =
  (Ok (if (0 <=? current + 1)%Z then
         match nth_error volume_list (Z.to_nat (current + 1)) with
         | Some (e :: entry) =>
             (Some (current + 1)%Z, Some (image_data_dict (e :: entry)))
         | _ => (None, None)
         end
       else (None, None)),
   set_current_id self (Some (current + 1)%Z)).
Proof.
  intros Hcur Hol.
  unfold layer_op, select, bind, get, lift, ret, modify. rewrite Hcur.
  destruct (Z.leb_spec 0 (current + 1)) as [Hpos|Hneg]; [|reflexivity].
  unfold set_current_id at 1; simpl. rewrite Hol.
  destruct (Z.ltb_spec (current + 1) (Z.of_nat (length volume_list)))
    as [Hlt|Hge].
  - destruct (py_getitem_in_range volume_list (current + 1)%Z) as [x [Hx Hg]];
      [lia|].
    rewrite Hg, Hx. destruct x; reflexivity.
  - assert (Hnone : nth_error volume_list (Z.to_nat (current + 1)) = None).
    { apply nth_error_None. lia. }
    rewrite Hnone. reflexivity.
Qed.

Lemma after_sequential_calls_snoc rnds rnd self :
  after_sequential_calls (rnds ++ [rnd]) self =
  snd (layer_op rnd false (after_sequential_calls rnds self)).
Proof. unfold after_sequential_calls. rewrite fold_left_app. reflexivity. Qed.

(** Sequential calls move the cursor by one each and touch nothing
    else. *)
Lemma after_sequential_calls_cursor self volume_list current rnds :
  current_id self = Some current ->
  output_list self = Some volume_list ->
  after_sequential_calls rnds self =
  set_current_id self (Some (current + Z.of_nat (length rnds))%Z).
Proof.
  intros Hcur Hol. induction rnds as [|rnd rnds IH] using rev_ind.
  - simpl. rewrite Z.add_0_r, <- Hcur. destruct self; reflexivity.
  - rewrite after_sequential_calls_snoc, IH.
    rewrite (layer_op_sequential _ volume_list
               (current + Z.of_nat (length rnds))%Z); [|reflexivity|exact Hol].
    simpl. unfold set_current_id; simpl. rewrite length_app. simpl.
    do 2 f_equal. lia.
Qed.

(** The catalog and the cursor survive every call. *)
Lemma layer_op_catalog_built self rnd shuffle :
  catalog_built self -> catalog_built (snd (layer_op rnd shuffle self)).
Proof.
  intros Hb. destruct shuffle.
  - rewrite layer_op_shuffle_frame. exact Hb.
  - destruct Hb as [vl [cur [Hol [Hne [Hall Hcur]]]]].
    rewrite (layer_op_sequential _ vl cur rnd Hcur Hol). simpl.
    exists vl, (cur + 1)%Z. auto.
Qed.

Lemma shapes_catalog_built self :
  catalog_built self -> catalog_built (snd (shapes self)).
Proof.
  intros Hb. unfold shapes.
  destruct (output_list self) as [[|e vl]|]; try exact Hb.
  destruct (_shapes self) as [[|s d]|]; try exact Hb;
    destruct (dict_comp _ _); exact Hb.
Qed.

Lemma dtypes_catalog_built self :
  catalog_built self -> catalog_built (snd (dtypes self)).
Proof.
  intros Hb. unfold dtypes.
  destruct (output_list self) as [[|e vl]|]; try exact Hb.
  destruct (_dtypes self) as [[|s d]|]; try exact Hb;
    destruct (dict_comp _ _); exact Hb.
Qed.

Lemma initialise_reader_catalog_built data_param task_param self :
  catalog_built self ->
  catalog_built (snd (initialise_reader data_param task_param self)).
Proof.
  intros Hb. rewrite initialise_reader_eq.
  destruct (dict_item task_param "name") as [app_type|f]; [|exact Hb].
  destruct (_load_and_merge_csv_files data_param) as [fl|f] eqn:Hfl;
    [|exact Hb].
  destruct (candidate_fields app_type self) as [candidates|]; [|exact Hb].
  cbv zeta. destruct (dict_comp _ _) as [sources|f]; [|exact Hb].
  destruct (_filename_to_image_list _ _) as [vl|f] eqn:Hvl; [|exact Hb].
  apply (_filename_to_image_list_ok _ _ fl) in Hvl; [|reflexivity].
  destruct Hvl as [Hlen Hall].
  assert (Hnew : catalog_built
            (set_current_id
               (set_output_list
                  (set_input_sources
                     (mkImageReader (Some fl)
                        (chosen_fields task_param candidates)
                        (_input_sources self) (_shapes self) (_dtypes self)
                        (output_list self) (current_id self))
                     (Some sources)) (Some vl)) (Some (-1)%Z))).
  { exists vl, (-1)%Z. simpl. repeat split; auto.
    apply _load_and_merge_csv_files_rows in Hfl. intros ->.
    unfold df_len in Hlen. destruct (rows fl); [congruence|discriminate]. }
  destruct (input_sources _); exact Hnew.
Qed.

(** Every initialised reader holds a built catalog and a cursor. *)
Lemma initialised_catalog_built self : initialised self -> catalog_built self.
Proof.
  induction 1 as [dp tp self self' Hinit|dp tp self _ IH|rnd sh self _ IH
                  |self _ IH|self _ IH].
  - apply initialise_reader_catalog in Hinit.
    destruct Hinit as [vl [Hol [Hne [Hall Hcur]]]].
    exists vl, (-1)%Z. auto.
  - apply initialise_reader_catalog_built; exact IH.
  - apply layer_op_catalog_built; exact IH.
  - apply shapes_catalog_built; exact IH.
  - apply dtypes_catalog_built; exact IH.
Qed.

(** C2. On a freshly initialised reader over a catalog of N entries, the
    call that follows k sequential calls returns index k with the decoded
    data of entry k while k < N, and the pair (None, None) from k = N on;
    the k earlier calls have moved the cursor from -1 to k - 1 and left
    every other attribute alone, and this call moves it to k. *)
Theorem layer_op_sequential_order
        (data_param : dict ModalityParam) (task_param : dict pyval)
        (self0 self : ImageReader) (volume_list : list (dict Image))
        (rnds : list Z) (rnd : Z) :
  initialise_reader data_param task_param self0 = (Ok tt, self) ->
  output_list self = Some volume_list ->
  current_id self = Some (-1)%Z /\
  after_sequential_calls rnds self =
    set_current_id self (Some (Z.of_nat (length rnds) - 1)%Z) /\
  layer_op rnd false (after_sequential_calls rnds self) =
    (Ok match nth_error volume_list (length rnds) with
        | Some entry =>
            (Some (Z.of_nat (length rnds)), Some (image_data_dict entry))
        | None => (None, None)
        end,
     set_current_id self (Some (Z.of_nat (length rnds)))) /\
  (forall entry,
     nth_error volume_list (length rnds) = Some entry ->
     image_data_dict entry =
     map (fun fi => (fst fi, get_data (snd fi))) entry) /\
  (nth_error volume_list (length rnds) = None <->
   length volume_list <= length rnds).
Proof.
  intros Hinit Hol.
  destruct (initialise_reader_catalog _ _ _ _ Hinit)
    as [vl [Hol' [Hne [Hall Hcur]]]].
  assert (vl = volume_list) by congruence. subst vl.
  assert (Hafter : after_sequential_calls rnds self =
                   set_current_id self (Some (Z.of_nat (length rnds) - 1)%Z)).
  { rewrite (after_sequential_calls_cursor _ volume_list (-1)%Z rnds Hcur Hol).
    do 2 f_equal. lia. }
  split; [exact Hcur|]. split; [exact Hafter|]. split; [|split].
  - rewrite Hafter.
    rewrite (layer_op_sequential _ volume_list (Z.of_nat (length rnds) - 1)%Z);
      [|reflexivity|exact Hol].
    replace (Z.of_nat (length rnds) - 1 + 1)%Z with (Z.of_nat (length rnds))
      by lia.
    destruct (Z.leb_spec 0 (Z.of_nat (length rnds))) as [_|Hneg]; [|lia].
    rewrite Nat2Z.id. unfold set_current_id; simpl. f_equal. f_equal.
    destruct (nth_error volume_list (length rnds)) as [entry|] eqn:Hnth;
      [|reflexivity].
    rewrite Forall_forall in Hall. apply nth_error_In in Hnth.
    destruct (Hall _ Hnth) as [Hentry _].
    destruct entry; [congruence|reflexivity].
  - intros entry Hnth. apply image_data_dict_map.
    rewrite Forall_forall in Hall. apply nth_error_In in Hnth.
    apply (Hall _ Hnth).
  - apply nth_error_None.
Qed.

(** C8. A shuffled call returns the reader exactly as it received it,
    whatever the outcome; an index it returns lies within the catalog;
    and on an initialised reader it does return: an index within the
    catalog and the decoded data of the entry at that index. *)
Theorem layer_op_shuffle_stateless (self : ImageReader) (rnd : Z) :
  snd (layer_op rnd true self) = self /\
  (forall idx data,
     fst (layer_op rnd true self) = Ok (Some idx, data) ->
     exists volume_list,
       output_list self = Some volume_list /\
       (0 <= idx < Z.of_nat (length volume_list))%Z) /\
  (initialised self ->
   exists volume_list idx entry,
     output_list self = Some volume_list /\
     (0 <= idx < Z.of_nat (length volume_list))%Z /\
     nth_error volume_list (Z.to_nat idx) = Some entry /\
     layer_op rnd true self =
     (Ok (Some idx, Some (image_data_dict entry)), self)).
Proof.
  split; [apply layer_op_shuffle_frame|]. split.
  - intros idx data Hret.
    destruct (output_list self) as [[|e vl]|] eqn:Hol.
    + unfold layer_op, select, bind, get, lift, ret in Hret.
      rewrite Hol in Hret. discriminate.
    + destruct (layer_op_shuffle self (e :: vl) rnd Hol)
        as [idx' [entry [Hr [_ Heq]]]]; [discriminate|].
      rewrite Heq in Hret. simpl in Hret.
      exists (e :: vl). split; [reflexivity|].
      destruct entry; inversion Hret; subst; exact Hr.
    + unfold layer_op, select, bind, get, lift, ret in Hret.
      rewrite Hol in Hret. discriminate.
  - intros Hinit. apply initialised_catalog_built in Hinit.
    destruct Hinit as [vl [cur [Hol [Hne [Hall _]]]]].
    destruct (layer_op_shuffle self vl rnd Hol Hne)
      as [idx [entry [Hr [Hnth Heq]]]].
    exists vl, idx, entry. repeat split; try assumption; try apply Hr.
    rewrite Heq. rewrite Forall_forall in Hall.
    destruct (Hall _ (nth_error_In _ _ Hnth)) as [Hentry _].
    destruct entry; [congruence|reflexivity].
Qed.

(** A catalog is not built over a manifest with a row while the reader
    holds no input source. *)
Lemma _filename_to_image_list_no_source self data_param fl :
  _file_list self = Some fl -> rows fl <> [] ->
  _input_sources self = Some [] ->
  _filename_to_image_list self data_param = Err ReaderNotInitialized.
Proof.
  intros Hfl Hrows Hsrc. unfold _filename_to_image_list. rewrite Hfl.
  unfold df_len. destruct (rows fl) as [|row rest]; [congruence|].
  simpl length. simpl seq. cbn [list_comp].
  unfold row_dict at 1. unfold input_sources. rewrite Hsrc. reflexivity.
Qed.

(** C9, as the code has it.  An initialisation that resolves no output
    field builds no catalog: it fails with the reader-not-initialised
    condition and leaves the reader with no output field, no input
    source, and the catalog and cursor it had.  On a reader that never
    had a catalog every later call of [layer_op] raises a type error; on
    a reader initialised before, a shuffled call still returns an index
    and the decoded data of an entry of the old catalog.  On every
    initialised reader the pair (None, None) comes only from a
    sequential call whose index lies outside the catalog: no catalog
    holds an empty entry. *)
Theorem layer_op_no_field
        (data_param : dict ModalityParam) (task_param : dict pyval)
        (self : ImageReader) (app_type : pyval) (fl : DataFrame)
        (candidates : list string) :
  dict_get task_param "name" = Some app_type ->
  _load_and_merge_csv_files data_param = Ok fl ->
  candidate_fields app_type self = Some candidates ->
  chosen_fields task_param candidates = [] ->
  let self' := mkImageReader (Some fl) [] (Some []) (_shapes self)
                             (_dtypes self) (output_list self)
                             (current_id self) in
  initialise_reader data_param task_param self
  = (Err ReaderNotInitialized, self') /\
  (output_list self = None -> current_id self = None ->
   forall rnd shuffle, fst (layer_op rnd shuffle self') = raise TypeError) /\
  (initialised self ->
   forall rnd, exists volume_list idx entry,
     output_list self = Some volume_list /\
     nth_error volume_list (Z.to_nat idx) = Some entry /\
     entry <> [] /\
     image_data_dict entry <> [] /\
     layer_op rnd true self' =
     (Ok (Some idx, Some (image_data_dict entry)), self')) /\
  (forall reader rnd shuffle,
     initialised reader ->
     fst (layer_op rnd shuffle reader) = Ok (None, None) ->
     shuffle = false /\
     exists volume_list current,
       output_list reader = Some volume_list /\
       current_id reader = Some current /\
       Forall (fun entry => entry <> []) volume_list /\
       (current + 1 < 0 \/ Z.of_nat (length volume_list) <= current + 1)%Z).
Proof.
  intros Hname Hfl Hcand Hchosen self'.
  split; [|split; [|split]].
  - rewrite initialise_reader_eq. unfold dict_item. rewrite Hname, Hfl, Hcand.
    cbv zeta. rewrite Hchosen. cbn [dict_comp list_comp rbind dict_of_pairs].
    rewrite (_filename_to_image_list_no_source _ data_param fl);
      [reflexivity|reflexivity| |reflexivity].
    apply (_load_and_merge_csv_files_rows _ _ Hfl).
  - intros Hol Hcur rnd shuffle.
    unfold layer_op, select, bind, get, lift, ret, self'; simpl.
    rewrite Hol, Hcur. destruct shuffle; reflexivity.
  - intros Hinit rnd. apply initialised_catalog_built in Hinit.
    destruct Hinit as [vl [cur [Hol [Hne [Hall _]]]]].
    destruct (layer_op_shuffle self' vl rnd Hol Hne)
      as [idx [entry [_ [Hnth Heq]]]].
    rewrite Forall_forall in Hall.
    destruct (Hall _ (nth_error_In _ _ Hnth)) as [Hentry Hwf].
    exists vl, idx, entry. split; [exact Hol|]. split; [exact Hnth|].
    split; [exact Hentry|]. split.
    + rewrite (image_data_dict_map entry Hwf).
      destruct entry; [congruence|discriminate].
    + rewrite Heq. destruct entry; [congruence|reflexivity].
  - intros reader rnd shuffle Hinit Hret.
    apply initialised_catalog_built in Hinit.
    destruct Hinit as [vl [cur [Hol [Hne [Hall Hcur]]]]].
    assert (Hentries : Forall (fun entry : dict Image => entry <> []) vl).
    { apply Forall_forall. intros entry Hin. rewrite Forall_forall in Hall.
      apply (Hall _ Hin). }
    destruct shuffle.
    + exfalso.
      destruct (layer_op_shuffle reader vl rnd Hol Hne)
        as [idx [entry [_ [Hnth Heq]]]].
      rewrite Heq in Hret. simpl in Hret.
      rewrite Forall_forall in Hentries.
      pose proof (Hentries _ (nth_error_In _ _ Hnth)) as Hentry.
      destruct entry; [congruence|discriminate].
    + split; [reflexivity|]. exists vl, cur.
      split; [exact Hol|]. split; [exact Hcur|]. split; [exact Hentries|].
      rewrite (layer_op_sequential _ vl cur rnd Hcur Hol) in Hret.
      simpl in Hret.
      destruct (Z.leb_spec 0 (cur + 1)) as [Hpos|Hneg]; [|left; exact Hneg].
      right.
      destruct (nth_error vl (Z.to_nat (cur + 1))) as [entry|] eqn:Hnth.
      * rewrite Forall_forall in Hentries.
        pose proof (Hentries _ (nth_error_In _ _ Hnth)) as Hentry.
        destruct entry; [congruence|discriminate].
      * apply nth_error_None in Hnth. lia.
Qed.

(** An initialisation that resolves no output field does not succeed,
    so no reader is initialised into a catalog of empty entries. *)
Lemma initialise_reader_some_field data_param task_param self self' :
  initialise_reader data_param task_param self = (Ok tt, self') ->
  _output_fields self' <> [].
Proof.
  intros H. apply initialise_reader_ok in H.
  destruct H as [app [fl [cands [srcs [vl [_ [_ [_ [Hsrc [Hne [_ ->]]]]]]]]]]].
  simpl. apply dict_comp_ok in Hsrc. destruct Hsrc as [Hkeys _].
  destruct srcs as [|[k v] srcs]; [congruence|].
  intros Hnil. specialize (Hkeys k). rewrite Hnil in Hkeys.
  apply Hkeys. simpl; auto.
Qed.

End Access.

(** * More on the manifest merge *)

Lemma fold_right_product_ext {A : Type} (f g : A -> nat) l :
  (forall x, In x l -> f x = g x) ->
  fold_right (fun x acc => f x * acc) 1 l =
  fold_right (fun x acc => g x * acc) 1 l.
Proof.
  induction l as [|x l IH]; simpl; intros Hfg; [reflexivity|].
  rewrite (Hfg x), IH; auto.
Qed.

Lemma fold_right_product_permutation {A : Type} (f g : A -> nat) l l' :
  Permutation l l' -> (forall x, In x l -> f x = g x) ->
  fold_right (fun x acc => f x * acc) 1 l =
  fold_right (fun x acc => g x * acc) 1 l'.
Proof.
  intros Hp Hfg. rewrite (fold_right_product_ext f g l Hfg). clear Hfg.
  induction Hp as [|x l l' _ IH|x y l|l l' l'' _ IH1 _ IH2]; simpl.
  - reflexivity.
  - rewrite IH; reflexivity.
  - rewrite !Nat.mul_assoc. f_equal. apply Nat.mul_comm.
  - congruence.
Qed.

Lemma dict_get_of_In {V : Type} (d : dict V) k v :
  well_formed_dict d -> In (k, v) d -> dict_get d k = Some v.
Proof.
  unfold well_formed_dict.
  induction d as [|[k' v'] d IH]; simpl; intros Hnd Hin; [contradiction|].
  inversion Hnd as [|? ? Hnin Hnd']; subst.
  destruct Hin as [Heq|Hin].
  - inversion Heq; subst. rewrite String.eqb_refl. reflexivity.
  - destruct (String.eqb_spec k' k) as [->|Hne]; [|auto].
    exfalso. apply Hnin. apply in_map_iff. exists (k, v). auto.
Qed.

(** A dict answers the same whatever the order it yields its items in. *)
Lemma dict_get_permutation {V : Type} (d d' : dict V) k :
  well_formed_dict d -> Permutation d d' -> dict_get d k = dict_get d' k.
Proof.
  intros Hwf Hp.
  assert (Hwf' : well_formed_dict d').
  { unfold well_formed_dict, keys in *.
    eapply Permutation_NoDup; [apply Permutation_map; exact Hp|exact Hwf]. }
  destruct (dict_get d k) as [v|] eqn:Hd.
  - symmetry. apply dict_get_of_In; [exact Hwf'|].
    eapply Permutation_in; [exact Hp|]. apply dict_get_In; exact Hd.
  - destruct (dict_get d' k) as [v'|] eqn:Hd'; [|reflexivity].
    apply dict_get_In in Hd'. apply Permutation_sym in Hp.
    rewrite (dict_get_of_In d k v' Hwf (Permutation_in _ Hp Hd')) in Hd.
    discriminate.
Qed.

Section MergeMore.
Context {Types : ExternalTypes} {Ext : External}.


(** What a merge that returned went through. *)
Lemma _load_and_merge_csv_files_inv data_param df :
  _load_and_merge_csv_files data_param = Ok df ->
  exists m names,
    keys data_param = m :: names /\
    merge_csv_files data_param (keys data_param) None = Ok (Some df) /\
    rows df <> [].
Proof.
  intros H. pose proof (_load_and_merge_csv_files_rows _ _ H) as Hrows.
  unfold _load_and_merge_csv_files in H.
  destruct (merge_csv_files data_param (keys data_param) None)
    as [[fl|]|f] eqn:Hm; try discriminate.
  destruct (Nat.eqb (df_size fl) 0); [discriminate|].
  inversion H; subst fl.
  destruct (keys data_param) as [|m names] eqn:Hk.
  - simpl in Hm. discriminate.
  - exists m, names. auto.
Qed.

Lemma joined_rectangular data_param names df :
  joined data_param names df ->
  Forall (fun row => length (snd row) = length (columns df)) (rows df).
Proof.
  intros [Hc [_ Hr]]. rewrite Hc. apply Forall_forall. intros row Hin.
  rewrite Forall_forall in Hr. specialize (Hr row Hin).
  apply Forall2_length in Hr. auto.
Qed.

(** X1. Whatever the manifests hold, a table the merge returns has the
    modality names as labels in first-seen order, at least one row, one
    cell per label in every row, a row for a subject exactly when every
    manifest lists it, and under each label a path that modality's
    manifest lists for the row's subject. *)
Theorem _load_and_merge_csv_files_sound
        (data_param : dict ModalityParam) (df : DataFrame) :
  _load_and_merge_csv_files data_param = Ok df ->
  columns df = keys data_param /\
  rows df <> [] /\
  Forall (fun row => length (snd row) = length (columns df)) (rows df) /\
  (forall s, In s (subject_ids df) <->
             forall m, In m (keys data_param) ->
                       In s (map fst (manifest_of data_param m))) /\
  (forall row_id s cells m,
     nth_error (rows df) row_id = Some (s, cells) ->
     In m (keys data_param) ->
     exists p, df_loc df row_id m = Ok p /\
               In (s, p) (manifest_of data_param m)).
Proof.
  intros H. apply _load_and_merge_csv_files_inv in H.
  destruct H as [m [names [Hk [Hm Hrows]]]].
  destruct (merge_csv_files_all data_param m names df Hk Hm)
    as [Hj [_ [_ [Hin _]]]].
  split; [apply Hj|]. split; [exact Hrows|].
  split; [apply (joined_rectangular _ _ _ Hj)|]. split; [exact Hin|].
  intros row_id s cells m' Hrow Hm'. eapply df_loc_joined; eauto.
Qed.

(** X2. The merge returns a table exactly when there is at least one
    modality, every modality's manifest loads, the key columns of the
    manifests are of one type, and some subject is listed by all of
    them. *)
Theorem _load_and_merge_csv_files_succeeds_iff
        (data_param : dict ModalityParam) :
  (exists df, _load_and_merge_csv_files data_param = Ok df) <->
  keys data_param <> [] /\
  (forall m, In m (keys data_param) ->
             exists t, load_csv_list data_param m = Ok t) /\
  keys_typed_alike data_param /\
  (exists s, forall m, In m (keys data_param) ->
                       In s (map fst (manifest_of data_param m))).
Proof.
  split.
  - intros [df H]. apply _load_and_merge_csv_files_inv in H.
    destruct H as [m [names [Hk [Hm Hrows]]]].
    destruct (merge_csv_files_all data_param m names df Hk Hm)
      as [_ [Hload [_ [Hin [Htyped _]]]]].
    split; [congruence|]. split; [exact Hload|].
    split; [exact (Htyped Hrows)|].
    destruct (rows df) as [|[s cells] rest] eqn:Hr; [congruence|].
    exists s. apply Hin. unfold subject_ids. rewrite Hr. simpl; auto.
  - intros [Hne [Hload [Htyped [s Hs]]]].
    destruct (keys data_param) as [|m names] eqn:Hk; [congruence|].
    rewrite <- Hk in *.
    destruct (merge_csv_files_all_total data_param m names Hk Hload Htyped)
      as [df Hdf].
    destruct (merge_csv_files_all data_param m names df Hk Hdf)
      as [_ [_ [_ [Hin _]]]].
    exists df. apply _load_and_merge_csv_files_returns; [exact Hdf|].
    apply Hin in Hs. unfold subject_ids in Hs. intros Hr.
    rewrite Hr in Hs. exact Hs.
Qed.


Lemma _load_and_merge_csv_files_counts data_param df s :
  _load_and_merge_csv_files data_param = Ok df ->
  count_occ string_dec (subject_ids df) s = rows_per_subject data_param s.
Proof.
  intros H. apply _load_and_merge_csv_files_inv in H.
  destruct H as [m [names [Hk [Hm _]]]].
  destruct (merge_csv_files_all data_param m names df Hk Hm)
    as [_ [_ [Hcount _]]].
  apply Hcount.
Qed.

(** X4. In a table the merge returns, a subject has as many rows as the
    product, over the modalities, of the number of times each manifest
    lists it: one row when every manifest lists it once, none when some
    manifest leaves it out, several when manifests repeat it. *)
Theorem _load_and_merge_csv_files_row_counts
        (data_param : dict ModalityParam) (df : DataFrame) (s : string) :
  _load_and_merge_csv_files data_param = Ok df ->
  count_occ string_dec (subject_ids df) s = rows_per_subject data_param s /\
  ((forall m, In m (keys data_param) -> listed data_param m s = 1) ->
   count_occ string_dec (subject_ids df) s = 1) /\
  ((exists m, In m (keys data_param) /\ listed data_param m s = 0) ->
   count_occ string_dec (subject_ids df) s = 0).
Proof.
  intros H. rewrite (_load_and_merge_csv_files_counts _ _ s H).
  split; [reflexivity|]. unfold rows_per_subject. split.
  - induction (keys data_param) as [|m names IH]; simpl; intros Hone;
      [reflexivity|].
    rewrite Hone, IH; auto.
  - induction (keys data_param) as [|m names IH]; simpl;
      intros [m0 [Hin Hz]]; [contradiction|].
    destruct Hin as [->|Hin]; [rewrite Hz; reflexivity|].
    rewrite IH; [lia|eauto].
Qed.

Lemma load_csv_list_permutation data_param data_param' m :
  well_formed_dict data_param -> Permutation data_param data_param' ->
  load_csv_list data_param' m = load_csv_list data_param m /\
  manifest_of data_param' m = manifest_of data_param m /\
  manifest_dtype data_param' m = manifest_dtype data_param m.
Proof.
  intros Hwf Hp. unfold load_csv_list, manifest_of, manifest_dtype.
  rewrite (dict_get_permutation _ _ m Hwf Hp). auto.
Qed.

(** X5. The order in which [data_param] yields the modalities does not
    change whether the merge returns, nor which subjects the table holds
    and how many rows each has: the two tables have the same number of
    rows and the same labels up to order. *)
Theorem _load_and_merge_csv_files_order
        (data_param data_param' : dict ModalityParam) (df : DataFrame) :
  well_formed_dict data_param ->
  Permutation data_param data_param' ->
  _load_and_merge_csv_files data_param = Ok df ->
  exists df',
    _load_and_merge_csv_files data_param' = Ok df' /\
    Permutation (columns df) (columns df') /\
    Permutation (subject_ids df) (subject_ids df') /\
    n_rows df = n_rows df'.
Proof.
  intros Hwf Hp H.
  assert (Hkeys : Permutation (keys data_param) (keys data_param')).
  { unfold keys. apply Permutation_map. exact Hp. }
  assert (Hback : forall m', In m' (keys data_param') ->
                             In m' (keys data_param)).
  { intros m' Hm'. eapply Permutation_in; [apply Permutation_sym|]; eauto. }
  pose proof (_load_and_merge_csv_files_inv _ _ H)
    as [m [names [Hk [Hm Hrows]]]].
  destruct (merge_csv_files_all data_param m names df Hk Hm)
    as [Hj [Hload [_ [Hin [Htyped _]]]]].
  specialize (Htyped Hrows).
  assert (Hload' : forall m', In m' (keys data_param') ->
             exists t, load_csv_list data_param' m' = Ok t).
  { intros m' Hm'.
    rewrite (proj1 (load_csv_list_permutation _ _ m' Hwf Hp)).
    apply Hload, Hback, Hm'. }
  assert (Htyped' : keys_typed_alike data_param').
  { intros m1 m2 H1 H2.
    rewrite (proj2 (proj2 (load_csv_list_permutation _ _ m1 Hwf Hp))).
    rewrite (proj2 (proj2 (load_csv_list_permutation _ _ m2 Hwf Hp))).
    apply Htyped; apply Hback; assumption. }
  destruct (keys data_param') as [|m0 names0] eqn:Hk'.
  { rewrite Hk in Hkeys. apply Permutation_sym, Permutation_nil in Hkeys.
    discriminate. }
  rewrite <- Hk' in *.
  destruct (merge_csv_files_all_total data_param' m0 names0 Hk' Hload' Htyped')
    as [df' Hdf'].
  destruct (merge_csv_files_all data_param' m0 names0 df' Hk' Hdf')
    as [Hj' [_ [_ [Hin' _]]]].
  assert (Hrows' : rows df' <> []).
  { destruct (rows df) as [|[s cells] rest] eqn:Hr; [congruence|].
    assert (Hs : In s (subject_ids df')).
    { apply Hin'. intros m' Hm'.
      rewrite (proj1 (proj2 (load_csv_list_permutation _ _ m' Hwf Hp))).
      apply (proj1 (Hin s)).
      - unfold subject_ids. rewrite Hr. simpl; auto.
      - apply Hback, Hm'. }
    unfold subject_ids in Hs. intros Hr'. rewrite Hr' in Hs. exact Hs. }
  pose proof (_load_and_merge_csv_files_returns _ _ Hdf' Hrows') as H'.
  exists df'. split; [exact H'|].
  assert (Hperm : Permutation (subject_ids df) (subject_ids df')).
  { apply (Permutation_count_occ string_dec). intros s.
    rewrite (_load_and_merge_csv_files_counts _ _ s H).
    rewrite (_load_and_merge_csv_files_counts _ _ s H').
    unfold rows_per_subject. apply fold_right_product_permutation.
    - exact Hkeys.
    - intros m' _. unfold listed.
      rewrite (proj1 (proj2 (load_csv_list_permutation _ _ m' Hwf Hp))).
      reflexivity. }
  split.
  { destruct Hj as [-> _], Hj' as [-> _]. exact Hkeys. }
  split; [exact Hperm|].
  unfold n_rows. apply Permutation_length in Hperm.
  unfold subject_ids in Hperm. rewrite !length_map in Hperm. exact Hperm.
Qed.

End MergeMore.

(** * More on the descriptors and the catalog *)

Lemma list_comp_build {A B : Type} (f : A -> result B) (P : A -> B -> Prop) l :
  (forall x, In x l -> exists y, f x = Ok y /\ P x y) ->
  exists ys, list_comp f l = Ok ys /\ Forall2 P l ys.
Proof.
  induction l as [|x l IH]; simpl; intros Hall.
  - exists []. split; [reflexivity|constructor].
  - destruct (Hall x (or_introl eq_refl)) as [y [Hy HP]].
    destruct IH as [ys [Hys HF]]; [auto|].
    exists (y :: ys). rewrite Hy, Hys. split; [reflexivity|].
    constructor; assumption.
Qed.

Lemma list_comp_ext {A B : Type} (f g : A -> result B) l :
  (forall x, f x = g x) -> list_comp f l = list_comp g l.
Proof.
  intros Hfg. induction l as [|x l IH]; simpl; [reflexivity|].
  rewrite Hfg, IH. reflexivity.
Qed.

Lemma nth_error_seq_0 n i : i < n -> nth_error (seq 0 n) i = Some i.
Proof.
  intros Hi. rewrite nth_error_nth' with (d := 0) by (rewrite length_seq; exact Hi).
  rewrite seq_nth by exact Hi. reflexivity.
Qed.

Section CatalogMore.
Context {Types : ExternalTypes} {Ext : External}.

Lemma dict_comp_ext {V : Type} (f g : string -> result V) ks :
  (forall k, f k = g k) -> dict_comp f ks = dict_comp g ks.
Proof.
  intros Hfg. unfold dict_comp. f_equal. apply list_comp_ext.
  intros k. rewrite Hfg. reflexivity.
Qed.

(** The comprehension over a section attribute, once the sections are
    known. *)
Lemma list_comp_sections {W : Type} (data_param : dict ModalityParam)
      (g : ModalityParam -> W) mods sections :
  Forall2 (fun m section => dict_get data_param m = Some section)
          mods sections ->
  list_comp (fun mod_ => (section <- dict_item data_param mod_ ;;
                          Ok (g section))%result) mods
  = Ok (map g sections).
Proof.
  induction 1 as [|m section mods sections Hm _ IH]; [reflexivity|].
  assert (Hhead : (section <- dict_item data_param m ;;
                   Ok (g section))%result = Ok (g section)).
  { unfold dict_item, rbind. rewrite Hm. reflexivity. }
  cbn [list_comp map]. rewrite Hhead, IH. reflexivity.
Qed.

(** [_create_image] reads nothing of the reader but its manifest. *)
Lemma _create_image_reads_file_list self1 self2 idx modalities data_param :
  _file_list self1 = _file_list self2 ->
  _create_image self1 idx modalities data_param
  = _create_image self2 idx modalities data_param.
Proof.
  intros H. unfold _create_image, image_tuples. rewrite H. reflexivity.
Qed.

Lemma _load_and_merge_csv_files_joined data_param fl :
  _load_and_merge_csv_files data_param = Ok fl ->
  joined data_param (keys data_param) fl.
Proof.
  intros H. apply _load_and_merge_csv_files_inv in H.
  destruct H as [m [names [Hk [Hm _]]]].
  apply (merge_csv_files_all data_param m names fl Hk Hm).
Qed.

(** The descriptor built for a row of the merged manifest and a tuple of
    modalities that all have a section. *)
Lemma _create_image_built self data_param fl idx s cells modalities :
  _load_and_merge_csv_files data_param = Ok fl ->
  _file_list self = Some fl ->
  nth_error (rows fl) idx = Some (s, cells) ->
  (forall m, In m (py_iter modalities) -> In m (keys data_param)) ->
  exists paths sections,
    _create_image self idx modalities data_param =
    Ok (create_instance
          {| ip_file_path := paths;
             ip_name := modalities;
             ip_interp_order := map interp_order sections;
             ip_output_pixdim := map pixdim sections;
             ip_output_axcodes := map axcodes sections |}) /\
    Forall2 (fun m p => df_loc fl idx m = Ok p /\
                        In (s, p) (manifest_of data_param m))
            (py_iter modalities) paths /\
    Forall2 (fun m section => dict_get data_param m = Some section)
            (py_iter modalities) sections.
Proof.
  intros Hmerge Hfl Hrow Hkeys.
  pose proof (_load_and_merge_csv_files_joined _ _ Hmerge) as Hj.
  destruct (list_comp_build (fun mod_ => df_loc fl idx mod_)
              (fun m p => df_loc fl idx m = Ok p /\
                          In (s, p) (manifest_of data_param m))
              (py_iter modalities)) as [paths [Hpaths HFp]].
  { intros m Hm.
    destruct (df_loc_joined _ _ _ _ _ _ m Hj Hrow (Hkeys m Hm)) as [p [Hp Hin]].
    exists p. auto. }
  destruct (list_comp_build (fun m => match dict_get data_param m with
                                      | Some section => Ok section
                                      | None => raise KeyError
                                      end)
              (fun m section => dict_get data_param m = Some section)
              (py_iter modalities)) as [sections [_ HFs]].
  { intros m Hm. apply Hkeys, dict_get_keys in Hm.
    destruct Hm as [section Hs]. exists section. rewrite Hs. auto. }
  exists paths, sections. split; [|split; assumption].
  unfold _create_image, image_tuples. rewrite Hfl, Hpaths.
  unfold rbind at 1.
  rewrite (list_comp_sections data_param interp_order _ _ HFs).
  unfold rbind at 1.
  rewrite (list_comp_sections data_param pixdim _ _ HFs).
  unfold rbind at 1.
  rewrite (list_comp_sections data_param axcodes _ _ HFs).
  reflexivity.
Qed.

(** X6. For a row of the merged manifest and modalities that all have a
    section, [_create_image] returns the descriptor made from the
    modality tuple itself and four tuples aligned with it: under each
    modality, the path its manifest lists for the row's subject and the
    interpolation order, voxel spacing and axis codes of its section. *)
Theorem _create_image_descriptor
        (self : ImageReader) (data_param : dict ModalityParam)
        (fl : DataFrame) (idx : nat) (s : string) (cells : list string)
        (modalities : pyval) :
  _load_and_merge_csv_files data_param = Ok fl ->
  _file_list self = Some fl ->
  nth_error (rows fl) idx = Some (s, cells) ->
  (forall m, In m (py_iter modalities) -> In m (keys data_param)) ->
  exists paths sections,
    _create_image self idx modalities data_param =
    Ok (create_instance
          {| ip_file_path := paths;
             ip_name := modalities;
             ip_interp_order := map interp_order sections;
             ip_output_pixdim := map pixdim sections;
             ip_output_axcodes := map axcodes sections |}) /\
    length paths = length (py_iter modalities) /\
    length sections = length (py_iter modalities) /\
    (forall j m,
       nth_error (py_iter modalities) j = Some m ->
       exists p section,
         nth_error paths j = Some p /\
         nth_error sections j = Some section /\
         In (s, p) (manifest_of data_param m) /\
         dict_get data_param m = Some section).
Proof.
  intros Hmerge Hfl Hrow Hkeys.
  destruct (_create_image_built self data_param fl idx s cells modalities
              Hmerge Hfl Hrow Hkeys) as [paths [sections [Hc [HFp HFs]]]].
  exists paths, sections. split; [exact Hc|].
  split; [symmetry; apply (Forall2_length HFp)|].
  split; [symmetry; apply (Forall2_length HFs)|].
  intros j m Hj.
  destruct (Forall2_nth_error_l _ _ _ _ _ HFp Hj) as [p [Hp [_ Hin]]].
  destruct (Forall2_nth_error_l _ _ _ _ _ HFs Hj) as [section [Hs Hget]].
  exists p, section. auto.
Qed.

(** X7. Asked for a row past the end of the manifest, [_create_image]
    reports the unknown-modality condition as soon as the tuple names a
    modality; for a tuple without modalities it looks nothing up and
    returns the descriptor of five empty tuples, whatever the row. *)
Theorem _create_image_row_bounds
        (self : ImageReader) (data_param : dict ModalityParam)
        (idx : nat) (modalities : pyval) :
  (forall fl,
     _file_list self = Some fl ->
     n_rows fl <= idx ->
     py_iter modalities <> [] ->
     _create_image self idx modalities data_param = Err UnknownModality) /\
  (py_iter modalities = [] ->
   _create_image self idx modalities data_param =
   Ok (create_instance
         {| ip_file_path := [];
            ip_name := modalities;
            ip_interp_order := [];
            ip_output_pixdim := [];
            ip_output_axcodes := [] |})).
Proof.
  split.
  - intros fl Hfl Hidx Hne.
    unfold _create_image, image_tuples. rewrite Hfl.
    destruct (py_iter modalities) as [|m mods]; [congruence|].
    rewrite (list_comp_first_fails _ (Failure None KeyError)); [reflexivity|].
    unfold df_loc.
    assert (Hnone : nth_error (rows fl) idx = None)
      by (apply nth_error_None; exact Hidx).
    rewrite Hnone. reflexivity.
  - intros Hnil. unfold _create_image, image_tuples. rewrite Hnil.
    reflexivity.
Qed.

(** The build reads nothing of the reader but its manifest and its
    sources. *)
Lemma _filename_to_image_list_reads self1 self2 data_param :
  _file_list self1 = _file_list self2 ->
  _input_sources self1 = _input_sources self2 ->
  _filename_to_image_list self1 data_param
  = _filename_to_image_list self2 data_param.
Proof.
  intros Hfl Hsrc.
  assert (Hin : input_sources self1 = input_sources self2).
  { unfold input_sources. rewrite Hsrc. reflexivity. }
  assert (Hrow : forall row_id, row_dict self1 row_id data_param
                                = row_dict self2 row_id data_param).
  { intros row_id. unfold row_dict. rewrite Hin.
    destruct (input_sources self2) as [fields|f]; [|reflexivity].
    unfold rbind at 1. unfold rbind at 3.
    apply dict_comp_ext. intros field. unfold rbind.
    destruct (dict_item fields field); [|reflexivity].
    apply _create_image_reads_file_list. exact Hfl. }
  unfold _filename_to_image_list. rewrite Hfl.
  destruct (_file_list self2) as [fl|]; [|reflexivity].
  apply list_comp_ext. intros row_id. apply Hrow.
Qed.

(** The entries of a built catalog, row by row and field by field. *)
Lemma _filename_to_image_list_entries self data_param fl sources volume_list :
  _file_list self = Some fl ->
  _input_sources self = Some sources ->
  _filename_to_image_list self data_param = Ok volume_list ->
  length volume_list = n_rows fl /\
  forall row_id entry,
    nth_error volume_list row_id = Some entry ->
    row_id < n_rows fl /\
    well_formed_dict entry /\
    (forall field, In field (keys entry) <-> In field (keys sources)) /\
    (forall field image,
       dict_get entry field = Some image ->
       exists modalities,
         dict_get sources field = Some modalities /\
         _create_image self row_id modalities data_param = Ok image).
Proof.
  intros Hfl Hsrc H. unfold _filename_to_image_list in H. rewrite Hfl in H.
  apply list_comp_ok in H.
  assert (Hlen : length volume_list = n_rows fl).
  { apply Forall2_length in H. rewrite length_seq in H. symmetry. exact H. }
  split; [exact Hlen|].
  intros row_id entry Hnth.
  assert (Hlt : row_id < n_rows fl).
  { rewrite <- Hlen. apply nth_error_Some. congruence. }
  split; [exact Hlt|].
  assert (Hrow : row_dict self row_id data_param = Ok entry).
  { destruct (Forall2_nth_error_l _ _ _ row_id row_id H
                (nth_error_seq_0 _ _ Hlt)) as [entry' [Hn He]].
    congruence. }
  unfold row_dict, input_sources in Hrow. rewrite Hsrc in Hrow.
  destruct sources as [|e d]; [discriminate|].
  unfold rbind at 1 in Hrow. apply dict_comp_ok in Hrow.
  destruct Hrow as [Hkeys [Hget [Hwf _]]].
  split; [exact Hwf|]. split; [exact Hkeys|].
  intros field image Hg. destruct (Hget _ _ Hg) as [_ Hf].
  unfold rbind, dict_item in Hf.
  destruct (dict_get (e :: d) field) as [modalities|]; [|discriminate].
  eauto.
Qed.

End CatalogMore.

(** * More on the initialisation *)

Section InitialisationMore.
Context {Types : ExternalTypes} {Ext : External}.

Lemma dict_comp_returns {V : Type} (f : string -> result V) ks :
  (forall k, In k ks -> exists v, f k = Ok v) ->
  exists d, dict_comp f ks = Ok d.
Proof.
  intros Hall. unfold dict_comp.
  destruct (list_comp_build (fun k => (v <- f k ;; Ok (k, v))%result)
              (fun _ _ => True) ks) as [kvs [Hkvs _]].
  - intros k Hk. destruct (Hall k Hk) as [v Hv].
    exists (k, v). unfold rbind. rewrite Hv. auto.
  - rewrite Hkvs. simpl. eauto.
Qed.

(** A build that returned over a manifest with a row had sources to
    read. *)
Lemma _filename_to_image_list_needs_sources self data_param fl volume_list :
  _file_list self = Some fl -> rows fl <> [] ->
  _filename_to_image_list self data_param = Ok volume_list ->
  exists e d, _input_sources self = Some (e :: d).
Proof.
  intros Hfl Hrows. unfold _filename_to_image_list. rewrite Hfl.
  unfold df_len. destruct (rows fl) as [|row rest]; [congruence|].
  simpl length. simpl seq. cbn [list_comp].
  unfold row_dict at 1. unfold input_sources.
  destruct (_input_sources self) as [[|e d]|]; simpl; try discriminate.
  eauto.
Qed.

(** A descriptor that was built names only modalities with a section. *)
Lemma _create_image_ok_sections self idx modalities data_param fl image :
  _file_list self = Some fl ->
  _create_image self idx modalities data_param = Ok image ->
  forall m, In m (py_iter modalities) -> In m (keys data_param).
Proof.
  intros Hfl Hok m Hm. apply dict_get_keys.
  destruct (dict_get data_param m) as [section|] eqn:Hget; [eauto|].
  rewrite (_create_image_unknown self idx modalities data_param fl m) in Hok;
    auto. discriminate.
Qed.

Lemma chosen_fields_idem task_param candidates :
  chosen_fields task_param (chosen_fields task_param candidates)
  = chosen_fields task_param candidates.
Proof.
  unfold chosen_fields at 1 3. apply filter_ext_in. intros k Hk.
  apply eq_iff_eq_true.
  rewrite !andb_true_iff, !str_in_In, chosen_fields_In.
  destruct (dict_get task_param k) as [v|].
  - rewrite ne_empty_tuple_true. split.
    + intros [[Hc _] Hv]. auto.
    + intros [Hc Hv]. repeat split; eauto.
  - split; intros [_ H]; discriminate.
Qed.

(** The build over the merged manifest returns when every field of the
    sources names only modalities with a section. *)
Lemma _filename_to_image_list_returns self data_param fl e d :
  _load_and_merge_csv_files data_param = Ok fl ->
  _file_list self = Some fl ->
  _input_sources self = Some (e :: d) ->
  (forall field modalities m,
     dict_get (e :: d) field = Some modalities ->
     In m (py_iter modalities) -> In m (keys data_param)) ->
  exists volume_list, _filename_to_image_list self data_param = Ok volume_list.
Proof.
  intros Hmerge Hfl Hsrc Hmods. unfold _filename_to_image_list. rewrite Hfl.
  destruct (list_comp_build (fun row_id => row_dict self row_id data_param)
              (fun _ _ => True) (seq 0 (df_len fl))) as [vl [Hvl _]];
    [|eauto].
  intros row_id Hrow. apply in_seq in Hrow.
  assert (Hnth : exists s cells, nth_error (rows fl) row_id = Some (s, cells)).
  { destruct (nth_error (rows fl) row_id) as [[s cells]|] eqn:Hn; [eauto|].
    apply nth_error_None in Hn. unfold df_len in Hrow. lia. }
  destruct Hnth as [s [cells Hnth]].
  assert (Hin : input_sources self = Ok (e :: d)).
  { unfold input_sources. rewrite Hsrc. reflexivity. }
  unfold row_dict. rewrite Hin. unfold rbind at 1.
  destruct (dict_comp_returns
              (fun field =>
                 (sources <- Ok (e :: d) ;;
                  modalities <- dict_item sources field ;;
                  _create_image self row_id modalities data_param)%result)
              (keys (e :: d))) as [entry Hentry]; [|eauto].
  intros field Hfield. apply dict_get_keys in Hfield.
  destruct Hfield as [modalities Hget].
  unfold rbind, dict_item. rewrite Hget.
  destruct (_create_image_built self data_param fl row_id s cells modalities
              Hmerge Hfl Hnth) as [paths [sections [Hc _]]].
  - intros m Hm. eapply Hmods; eauto.
  - rewrite Hc. eauto.
Qed.

(** X8. [initialise_reader] succeeds exactly when the specification has
    a name entry, the manifests merge, the candidate list is bound (the
    reader was given output fields, or the application is a known one),
    at least one field is chosen, and every modality named by a chosen
    field has a section in the properties table. *)
Theorem initialise_reader_succeeds_iff
        (data_param : dict ModalityParam) (task_param : dict pyval)
        (self : ImageReader) :
  (exists self', initialise_reader data_param task_param self = (Ok tt, self'))
  <->
  exists app_type fl candidates,
    dict_get task_param "name" = Some app_type /\
    _load_and_merge_csv_files data_param = Ok fl /\
    candidate_fields app_type self = Some candidates /\
    chosen_fields task_param candidates <> [] /\
    forall field modalities m,
      In field (chosen_fields task_param candidates) ->
      dict_get task_param field = Some modalities ->
      In m (py_iter modalities) -> In m (keys data_param).
Proof.
  split.
  - intros [self' H]. pose proof H as Hinit.
    apply initialise_reader_ok in H.
    destruct H as [app [fl [cands [srcs [vl [Hname [Hfl [Hc [Hsrc [Hne _]]]]]]]]]].
    exists app, fl, cands. repeat split; try assumption.
    + pose proof (dict_comp_ok _ _ _ Hsrc) as [Hkeys _].
      intros Hnil. destruct srcs as [|[k v] srcs]; [congruence|].
      specialize (Hkeys k). rewrite Hnil in Hkeys. apply Hkeys. simpl; auto.
    + intros field modalities m Hfield Hget Hm. apply dict_get_keys.
      destruct (dict_get data_param m) as [section|] eqn:Hsec; [eauto|].
      destruct (initialise_reader_unknown_modality data_param task_param self
                  app fl cands field modalities m
                  Hname Hfl Hc Hfield Hget Hm Hsec) as [Herr _].
      rewrite Hinit in Herr. discriminate.
  - intros [app [fl [cands [Hname [Hfl [Hc [Hne Hmods]]]]]]].
    rewrite initialise_reader_eq. unfold dict_item at 1.
    rewrite Hname, Hfl, Hc. cbv zeta.
    destruct (dict_comp_returns (fun field => dict_item task_param field)
                (chosen_fields task_param cands)) as [srcs Hsrc].
    { intros k Hk. apply chosen_fields_In in Hk.
      destruct Hk as [_ [v [Hv _]]]. exists v. unfold dict_item.
      rewrite Hv. reflexivity. }
    rewrite Hsrc.
    pose proof (dict_comp_ok _ _ _ Hsrc) as [Hkeys [Hget [_ Hsne]]].
    specialize (Hsne Hne). destruct srcs as [|e d]; [congruence|].
    match goal with
    | |- context [_filename_to_image_list ?reader data_param] =>
        destruct (_filename_to_image_list_returns
                    reader data_param fl e d Hfl eq_refl eq_refl) as [vl Hvl]
    end.
    { intros field modalities m Hg Hm.
      destruct (Hget _ _ Hg) as [Hchosen Hitem]. unfold dict_item in Hitem.
      destruct (dict_get task_param field) as [v|] eqn:Hv; [|discriminate].
      inversion Hitem; subst v. eapply Hmods; eauto. }
    rewrite Hvl. unfold input_sources, set_current_id, set_output_list; simpl.
    eauto.
Qed.

(** X9. After a successful initialisation the catalog has one entry per
    row of the merged manifest, in row order; the entry of a row has
    exactly the output fields as keys, and under each field the
    descriptor made from the field's modalities, the paths that very row
    of the merged manifest holds under the modalities' labels (paths the
    manifests list for the row's subject) and the sections'
    parameters. *)
Theorem initialise_reader_catalog_entries
        (data_param : dict ModalityParam) (task_param : dict pyval)
        (self self' : ImageReader) :
  initialise_reader data_param task_param self = (Ok tt, self') ->
  exists fl sources volume_list,
    _load_and_merge_csv_files data_param = Ok fl /\
    _file_list self' = Some fl /\
    input_sources self' = Ok sources /\
    output_list self' = Some volume_list /\
    length volume_list = n_rows fl /\
    forall row_id s cells,
      nth_error (rows fl) row_id = Some (s, cells) ->
      exists entry,
        nth_error volume_list row_id = Some entry /\
        (forall field, In field (keys entry) <-> In field (_output_fields self')) /\
        forall field modalities,
          dict_get sources field = Some modalities ->
          exists paths sections,
            dict_get entry field =
            Some (create_instance
                    {| ip_file_path := paths;
                       ip_name := modalities;
                       ip_interp_order := map interp_order sections;
                       ip_output_pixdim := map pixdim sections;
                       ip_output_axcodes := map axcodes sections |}) /\
            Forall2 (fun m p => df_loc fl row_id m = Ok p /\
                                In (s, p) (manifest_of data_param m))
                    (py_iter modalities) paths /\
            Forall2 (fun m section => dict_get data_param m = Some section)
                    (py_iter modalities) sections.
Proof.
  intros H. apply initialise_reader_ok in H.
  destruct H as [app [fl [cands [srcs [vl [_ [Hfl [_ [Hsrc [Hne [Hvl ->]]]]]]]]]]].
  exists fl, srcs, vl. simpl.
  split; [exact Hfl|]. split; [reflexivity|]. split.
  { unfold input_sources; simpl. destruct srcs; [congruence|reflexivity]. }
  split; [reflexivity|].
  pose proof (dict_comp_ok _ _ _ Hsrc) as [Hkeys _].
  match type of Hvl with
  | _filename_to_image_list ?reader _ = _ =>
      destruct (_filename_to_image_list_entries reader data_param fl srcs vl
                  eq_refl eq_refl Hvl) as [Hlen Hentries]
  end.
  split; [exact Hlen|].
  intros row_id s cells Hrow.
  assert (Hlt : row_id < length vl).
  { rewrite Hlen. unfold n_rows. apply nth_error_Some. congruence. }
  destruct (nth_error vl row_id) as [entry|] eqn:Hnth;
    [|apply nth_error_None in Hnth; lia].
  exists entry. split; [reflexivity|].
  destruct (Hentries _ _ Hnth) as [_ [_ [Hek Hget]]].
  split.
  { intros field. rewrite Hek. apply Hkeys. }
  intros field modalities Hfield.
  assert (Hin : In field (keys entry)).
  { apply Hek. apply dict_get_keys. eauto. }
  apply dict_get_keys in Hin. destruct Hin as [image Himage].
  destruct (Hget _ _ Himage) as [mods [Hmods Hcreate]].
  assert (mods = modalities) by congruence. subst mods.
  match type of Hcreate with
  | _create_image ?reader _ _ _ = _ =>
      pose proof (_create_image_ok_sections reader _ _ _ fl _ eq_refl Hcreate)
        as Hsec;
      destruct (_create_image_built reader data_param fl row_id s cells
                  modalities Hfl eq_refl Hrow Hsec)
        as [paths [sections [Hc [HFp HFs]]]]
  end.
  exists paths, sections. split; [congruence|]. split; assumption.
Qed.

(** X10. An initialisation never touches the memoised shapes and element
    types; when it fails it leaves the catalog and the cursor as they
    were, and when it succeeds the cursor is at -1. *)
Theorem initialise_reader_frame
        (data_param : dict ModalityParam) (task_param : dict pyval)
        (self : ImageReader) :
  _shapes (snd (initialise_reader data_param task_param self)) = _shapes self /\
  _dtypes (snd (initialise_reader data_param task_param self)) = _dtypes self /\
  (forall f,
     fst (initialise_reader data_param task_param self) = Err f ->
     output_list (snd (initialise_reader data_param task_param self))
       = output_list self /\
     current_id (snd (initialise_reader data_param task_param self))
       = current_id self) /\
  (fst (initialise_reader data_param task_param self) = Ok tt ->
   current_id (snd (initialise_reader data_param task_param self))
     = Some (-1)%Z).
Proof.
  rewrite initialise_reader_eq.
  destruct (dict_item task_param "name") as [app_type|f0];
    [|simpl; repeat split; auto; discriminate].
  destruct (_load_and_merge_csv_files data_param) as [fl|f0] eqn:Hfl;
    [|simpl; repeat split; auto; discriminate].
  destruct (candidate_fields app_type self) as [candidates|];
    [|simpl; repeat split; auto; discriminate].
  cbv zeta.
  destruct (dict_comp _ _) as [sources|f0];
    [|simpl; repeat split; auto; discriminate].
  destruct (_filename_to_image_list _ _) as [vl|f0] eqn:Hvl;
    [|simpl; repeat split; auto; discriminate].
  apply (_filename_to_image_list_needs_sources _ _ fl) in Hvl;
    [|reflexivity|apply (_load_and_merge_csv_files_rows _ _ Hfl)].
  destruct Hvl as [e [d Hsrc]]. simpl in Hsrc. inversion Hsrc; subst sources.
  unfold input_sources; simpl. repeat split; auto; discriminate.
Qed.

(** X12. A reader that holds output fields never gains one by being
    initialised again: the fields chosen are among those it held,
    whatever the application and the specification. *)
Theorem initialise_reader_fields_shrink
        (data_param : dict ModalityParam) (task_param : dict pyval)
        (self self' : ImageReader) :
  _output_fields self <> [] ->
  initialise_reader data_param task_param self = (Ok tt, self') ->
  incl (_output_fields self') (_output_fields self) /\
  _output_fields self' <> [].
Proof.
  intros Hfields H. pose proof (initialise_reader_some_field _ _ _ _ H) as Hne.
  apply initialise_reader_ok in H.
  destruct H as [app [fl [cands [srcs [vl [_ [_ [Hc [_ [_ [_ ->]]]]]]]]]]].
  simpl in *. split; [|exact Hne].
  unfold candidate_fields in Hc.
  destruct (_output_fields self) as [|f0 fs]; [congruence|].
  inversion Hc; subst cands.
  intros field Hin. apply chosen_fields_In in Hin. tauto.
Qed.

End InitialisationMore.

(** * More on the access modes and the introspection *)

Lemma dict_get_map_values {V W : Type} (g : V -> W) (d : dict V) k :
  dict_get (map (fun kv => (fst kv, g (snd kv))) d) k
  = option_map g (dict_get d k).
Proof.
  induction d as [|[k' v] d IH]; simpl; [reflexivity|].
  destruct (String.eqb k' k); [reflexivity|exact IH].
Qed.

Lemma keys_map_values {V W : Type} (g : V -> W) (d : dict V) :
  keys (map (fun kv => (fst kv, g (snd kv))) d) = keys d.
Proof. unfold keys. rewrite map_map. reflexivity. Qed.

Section AccessMore.
Context {Types : ExternalTypes} {Ext : External}.

Lemma set_current_id_same self : set_current_id self (current_id self) = self.
Proof. destruct self; reflexivity. Qed.

(** Whatever the call and its outcome, [layer_op] leaves a reader that
    differs from the one it was given in the cursor at most. *)
Lemma layer_op_only_cursor self rnd shuffle :
  set_current_id (snd (layer_op rnd shuffle self)) (current_id self) = self.
Proof.
  destruct shuffle.
  - rewrite layer_op_shuffle_frame. apply set_current_id_same.
  - unfold layer_op, select, bind, get, lift, ret, modify.
    destruct self as [fl fields src sh dt ol cur]; simpl.
    destruct cur as [c|]; [|reflexivity].
    destruct (0 <=? c + 1)%Z; [|reflexivity].
    unfold set_current_id; simpl.
    destruct ol as [vl|]; [|reflexivity].
    destruct (c + 1 <? Z.of_nat (length vl))%Z; [|reflexivity].
    destruct (py_getitem vl (c + 1)) as [[|e entry]|f]; reflexivity.
Qed.

(** The cursor after a sequential call on a reader that has one. *)
Lemma layer_op_sequential_cursor self rnd current :
  current_id self = Some current ->
  current_id (snd (layer_op rnd false self)) = Some (current + 1)%Z.
Proof.
  intros Hcur. unfold layer_op, select, bind, get, lift, ret, modify.
  rewrite Hcur.
  destruct (0 <=? current + 1)%Z; [|reflexivity].
  unfold set_current_id at 1; simpl.
  destruct (output_list self) as [vl|]; [|reflexivity].
  destruct (current + 1 <? Z.of_nat (length vl))%Z; [|reflexivity].
  destruct (py_getitem vl (current + 1)) as [[|e entry]|f]; reflexivity.
Qed.

Lemma after_calls_snoc calls call self :
  after_calls (calls ++ [call]) self =
  snd (layer_op (fst call) (snd call) (after_calls calls self)).
Proof. unfold after_calls. rewrite fold_left_app. reflexivity. Qed.

Lemma sequential_count_snoc calls call :
  sequential_count (calls ++ [call]) =
  sequential_count calls + (if snd call then 0 else 1).
Proof.
  unfold sequential_count. rewrite filter_app, length_app. simpl.
  destruct (snd call); reflexivity.
Qed.

(** Calls of either kind, in any order, leave everything but the cursor
    alone, and the cursor has moved by the number of sequential ones. *)
Lemma after_calls_cursor self volume_list current calls :
  current_id self = Some current ->
  output_list self = Some volume_list ->
  after_calls calls self =
  set_current_id self
    (Some (current + Z.of_nat (sequential_count calls))%Z).
Proof.
  intros Hcur Hol. induction calls as [|[rnd shuffle] calls IH] using rev_ind.
  - simpl. rewrite Z.add_0_r, <- Hcur. symmetry. apply set_current_id_same.
  - rewrite after_calls_snoc, sequential_count_snoc, IH. simpl.
    destruct shuffle.
    + rewrite layer_op_shuffle_frame. do 2 f_equal. lia.
    + rewrite (layer_op_sequential _ volume_list
                 (current + Z.of_nat (sequential_count calls))%Z);
        [|reflexivity|exact Hol].
      simpl. unfold set_current_id; simpl. do 2 f_equal. lia.
Qed.

(** A reader that holds output fields is its own source of
    candidates. *)
Lemma candidate_fields_own app_type self :
  _output_fields self <> [] ->
  candidate_fields app_type self = Some (_output_fields self).
Proof.
  unfold candidate_fields. destruct (_output_fields self); congruence.
Qed.

(** What a call that returns data returns. *)
Lemma layer_op_returns_entry self volume_list rnd shuffle idx data :
  output_list self = Some volume_list ->
  fst (layer_op rnd shuffle self) = Ok (Some idx, Some data) ->
  exists entry,
    (0 <= idx < Z.of_nat (length volume_list))%Z /\
    nth_error volume_list (Z.to_nat idx) = Some entry /\
    entry <> [] /\
    data = image_data_dict entry.
Proof.
  intros Hol Hret. destruct shuffle.
  - destruct volume_list as [|e0 vl].
    + unfold layer_op, select, bind, get, lift, ret in Hret.
      rewrite Hol in Hret. discriminate.
    + destruct (layer_op_shuffle self (e0 :: vl) rnd Hol)
        as [idx' [entry [Hr [Hnth Heq]]]]; [discriminate|].
      rewrite Heq in Hret. simpl in Hret.
      destruct entry as [|x entry]; inversion Hret; subst.
      exists (x :: entry). repeat split; auto; try apply Hr. discriminate.
  - destruct (current_id self) as [current|] eqn:Hcur.
    + rewrite (layer_op_sequential _ volume_list current rnd Hcur Hol) in Hret.
      simpl in Hret.
      destruct (Z.leb_spec 0 (current + 1)) as [Hpos|]; [|discriminate].
      destruct (nth_error volume_list (Z.to_nat (current + 1)))
        as [[|x entry]|] eqn:Hnth; try discriminate.
      inversion Hret; subst.
      exists (x :: entry). split; [|split; [exact Hnth|split; [discriminate|reflexivity]]].
      split; [exact Hpos|].
      assert (Hlt : Z.to_nat (current + 1) < length volume_list)
        by (apply nth_error_Some; congruence).
      lia.
    + unfold layer_op, select, bind, get, lift, ret in Hret.
      rewrite Hcur in Hret. discriminate.
Qed.

(** The entries of the catalog of a successful initialisation have the
    output fields as keys. *)
Lemma initialise_reader_entry_fields data_param task_param self self' :
  initialise_reader data_param task_param self = (Ok tt, self') ->
  exists volume_list,
    output_list self' = Some volume_list /\
    volume_list <> [] /\
    current_id self' = Some (-1)%Z /\
    _output_fields self' <> [] /\
    _shapes self' = _shapes self /\
    _dtypes self' = _dtypes self /\
    forall entry,
      In entry volume_list ->
      well_formed_dict entry /\
      forall field, In field (keys entry) <-> In field (_output_fields self').
Proof.
  intros H.
  pose proof (initialise_reader_some_field _ _ _ _ H) as Hsome.
  pose proof (initialise_reader_catalog _ _ _ _ H) as [vl0 [Hol0 [Hne0 [_ Hcur0]]]].
  apply initialise_reader_ok in H.
  destruct H as [app [fl [cands [srcs [vl [_ [Hfl [_ [Hsrc [Hne [Hvl ->]]]]]]]]]]].
  simpl in *. inversion Hol0; subst vl0.
  exists vl. repeat split; auto.
  - match type of Hvl with
    | _filename_to_image_list ?reader _ = _ =>
        destruct (_filename_to_image_list_entries reader data_param fl srcs vl
                    eq_refl eq_refl Hvl) as [_ Hentries]
    end.
    apply In_nth_error in H. destruct H as [row_id Hnth].
    apply (Hentries _ _ Hnth).
  - match type of Hvl with
    | _filename_to_image_list ?reader _ = _ =>
        destruct (_filename_to_image_list_entries reader data_param fl srcs vl
                    eq_refl eq_refl Hvl) as [_ Hentries]
    end.
    apply In_nth_error in H. destruct H as [row_id Hnth].
    destruct (Hentries _ _ Hnth) as [_ [_ [Hek _]]].
    pose proof (dict_comp_ok _ _ _ Hsrc) as [Hkeys _].
    intros Hin. apply Hkeys, Hek, Hin.
  - match type of Hvl with
    | _filename_to_image_list ?reader _ = _ =>
        destruct (_filename_to_image_list_entries reader data_param fl srcs vl
                    eq_refl eq_refl Hvl) as [_ Hentries]
    end.
    apply In_nth_error in H. destruct H as [row_id Hnth].
    destruct (Hentries _ _ Hnth) as [_ [_ [Hek _]]].
    pose proof (dict_comp_ok _ _ _ Hsrc) as [Hkeys _].
    intros Hin. apply Hek, Hkeys, Hin.
Qed.

(** The comprehension of [shapes] and [dtypes] over the sampled entry. *)
Lemma sample_comp {W : Type} (g : Image -> result W)
      (entry : dict Image) (fields : list string) :
  (forall field, In field fields -> In field (keys entry)) ->
  (forall field image, dict_get entry field = Some image ->
                       exists w, g image = Ok w) ->
  exists d,
    dict_comp (fun field => (image <- dict_item entry field ;; g image)%result)
              fields = Ok d /\
    (forall field, In field (keys d) <-> In field fields) /\
    (forall field image,
       In field fields -> dict_get entry field = Some image ->
       exists w, g image = Ok w /\ dict_get d field = Some w) /\
    (fields <> [] -> d <> []).
Proof.
  intros Hkeys Hg.
  destruct (dict_comp_returns
              (fun field => (image <- dict_item entry field ;; g image)%result)
              fields) as [d Hd].
  { intros field Hin. apply Hkeys, dict_get_keys in Hin.
    destruct Hin as [image Himage]. destruct (Hg _ _ Himage) as [w Hw].
    exists w. unfold rbind, dict_item. rewrite Himage. exact Hw. }
  exists d. split; [exact Hd|].
  apply dict_comp_ok in Hd. destruct Hd as [Hk [Hget [_ Hne]]].
  split; [exact Hk|]. split; [|exact Hne].
  intros field image Hin Himage. apply Hk, dict_get_keys in Hin.
  destruct Hin as [w Hw]. destruct (Hget _ _ Hw) as [_ Hf].
  unfold rbind, dict_item in Hf. rewrite Himage in Hf. eauto.
Qed.

(** X11. Initialising an initialised reader again with the same
    parameters, the manifest files being what they were, succeeds and
    gives back the state the first initialisation left, with the cursor
    at -1 again however many calls of [layer_op] were made in between. *)
Theorem initialise_reader_again
        (data_param : dict ModalityParam) (task_param : dict pyval)
        (self self1 : ImageReader) (calls : list (Z * bool)) :
  initialise_reader data_param task_param self = (Ok tt, self1) ->
  initialise_reader data_param task_param (after_calls calls self1)
  = (Ok tt, self1).
Proof.
  intros H.
  pose proof (initialise_reader_entry_fields _ _ _ _ H)
    as [vl0 [Hol0 [_ [Hcur0 [Hsome _]]]]].
  rewrite (after_calls_cursor self1 vl0 (-1)%Z calls Hcur0 Hol0).
  apply initialise_reader_ok in H.
  destruct H as [app [fl [cands [srcs [vl [Hname [Hfl [Hc [Hsrc [Hne [Hvl ->]]]]]]]]]]].
  simpl in Hsome.
  rewrite initialise_reader_eq. unfold dict_item at 1. rewrite Hname, Hfl.
  match goal with
  | |- context [candidate_fields app ?reader] =>
      rewrite (candidate_fields_own app reader Hsome)
  end.
  unfold set_current_id; simpl.
  rewrite chosen_fields_idem. rewrite Hsrc.
  match goal with
  | |- context [_filename_to_image_list ?reader data_param] =>
      match type of Hvl with
      | _filename_to_image_list ?reader0 _ = _ =>
          rewrite (_filename_to_image_list_reads reader reader0 data_param
                     eq_refl eq_refl)
      end
  end.
  rewrite Hvl. unfold input_sources, set_current_id, set_output_list,
    set_input_sources; simpl.
  destruct srcs; [congruence|reflexivity].
Qed.

(** X13. Shuffled calls do not disturb the sequential order: on a
    freshly initialised reader, after any mix of calls of which k were
    sequential, the next sequential call returns index k with the
    decoded entry k while k is below the catalog length, and the pair
    (None, None) afterwards. *)
Theorem layer_op_interleaved
        (data_param : dict ModalityParam) (task_param : dict pyval)
        (self0 self : ImageReader) (volume_list : list (dict Image))
        (calls : list (Z * bool)) (rnd : Z) :
  initialise_reader data_param task_param self0 = (Ok tt, self) ->
  output_list self = Some volume_list ->
  after_calls calls self =
    set_current_id self (Some (Z.of_nat (sequential_count calls) - 1)%Z) /\
  layer_op rnd false (after_calls calls self) =
    (Ok match nth_error volume_list (sequential_count calls) with
        | Some entry =>
            (Some (Z.of_nat (sequential_count calls)),
             Some (image_data_dict entry))
        | None => (None, None)
        end,
     set_current_id self (Some (Z.of_nat (sequential_count calls)))).
Proof.
  intros Hinit Hol.
  destruct (initialise_reader_catalog _ _ _ _ Hinit)
    as [vl [Hol' [Hne [Hall Hcur]]]].
  assert (vl = volume_list) by congruence. subst vl.
  assert (Hafter : after_calls calls self =
            set_current_id self (Some (Z.of_nat (sequential_count calls) - 1)%Z)).
  { rewrite (after_calls_cursor _ volume_list (-1)%Z calls Hcur Hol).
    do 2 f_equal. lia. }
  split; [exact Hafter|]. rewrite Hafter.
  rewrite (layer_op_sequential _ volume_list
             (Z.of_nat (sequential_count calls) - 1)%Z);
    [|reflexivity|exact Hol].
  replace (Z.of_nat (sequential_count calls) - 1 + 1)%Z
    with (Z.of_nat (sequential_count calls)) by lia.
  destruct (Z.leb_spec 0 (Z.of_nat (sequential_count calls))) as [_|Hneg];
    [|lia].
  rewrite Nat2Z.id. unfold set_current_id; simpl. f_equal. f_equal.
  destruct (nth_error volume_list (sequential_count calls)) as [entry|] eqn:Hnth;
    [|reflexivity].
  rewrite Forall_forall in Hall. apply nth_error_In in Hnth.
  destruct (Hall _ Hnth) as [Hentry _].
  destruct entry; [congruence|reflexivity].
Qed.

Lemma after_calls_initialised calls self :
  initialised self -> initialised (after_calls calls self).
Proof.
  intros Hinit. induction calls as [|call calls IH] using rev_ind;
    [exact Hinit|].
  rewrite after_calls_snoc. apply initialised_layer_op. exact IH.
Qed.

(** X14. The dictionary a call of [layer_op] returns on an initialised
    reader has exactly the keys of the selected catalog entry and, under
    each, the decoded data of the image the entry holds for that field.
    When only calls of [layer_op] separate the reader from a successful
    initialisation, these keys are exactly the reader's output fields.
    (A later initialisation that fails may empty the output fields and
    leave the catalog, so the keys need not be the output fields on
    every initialised reader.) *)
Theorem layer_op_bundle_fields
        (self : ImageReader) (rnd : Z) (shuffle : bool)
        (idx : Z) (data : dict Data) :
  initialised self ->
  fst (layer_op rnd shuffle self) = Ok (Some idx, Some data) ->
  exists volume_list entry,
    output_list self = Some volume_list /\
    (0 <= idx < Z.of_nat (length volume_list))%Z /\
    nth_error volume_list (Z.to_nat idx) = Some entry /\
    (forall field, In field (keys data) <-> In field (keys entry)) /\
    (forall field,
       dict_get data field = option_map get_data (dict_get entry field)) /\
    (forall data_param task_param self0 self1 calls,
       initialise_reader data_param task_param self0 = (Ok tt, self1) ->
       self = after_calls calls self1 ->
       forall field,
         In field (keys data) <-> In field (_output_fields self)).
Proof.
  intros Hinit Hret.
  destruct (initialised_catalog_built self Hinit)
    as [vl [cur [Hol [Hne [Hall Hcur]]]]].
  destruct (layer_op_returns_entry self vl rnd shuffle idx data Hol Hret)
    as [entry [Hr [Hnth [_ Hdata]]]].
  exists vl, entry. split; [exact Hol|]. split; [exact Hr|].
  split; [exact Hnth|].
  rewrite Forall_forall in Hall.
  destruct (Hall entry (nth_error_In _ _ Hnth)) as [_ Hwf].
  rewrite Hdata, (image_data_dict_map entry Hwf).
  split; [|split].
  - intros field. rewrite (keys_map_values get_data). reflexivity.
  - intros field. apply (dict_get_map_values get_data).
  - intros data_param task_param self0 self1 calls Hinit1 Hself field.
    destruct (initialise_reader_entry_fields _ _ _ _ Hinit1)
      as [vl1 [Hol1 [_ [Hcur1 [_ [_ [_ Hentries]]]]]]].
    rewrite (after_calls_cursor _ vl1 (-1)%Z calls Hcur1 Hol1) in Hself.
    assert (Hvl : vl1 = vl) by (subst self; simpl in Hol; congruence).
    subst vl1.
    destruct (Hentries entry (nth_error_In _ _ Hnth)) as [_ Hkeys].
    rewrite (keys_map_values get_data), Hkeys. subst self. reflexivity.
Qed.

(** X15. Right after a successful initialisation of a reader without
    memoised shapes, [shapes] returns a map with exactly the output
    fields as keys, each mapped to the shape of the decoded data of the
    first catalog entry's image, and stores it; asked again, it returns
    the stored map and changes nothing. *)
Theorem shapes_after_initialise
        (data_param : dict ModalityParam) (task_param : dict pyval)
        (self self1 : ImageReader) :
  initialise_reader data_param task_param self = (Ok tt, self1) ->
  truthy (_shapes self) = false ->
  exists d entry rest,
    output_list self1 = Some (entry :: rest) /\
    shapes self1 = (Ok d, set_shapes self1 (Some d)) /\
    (forall field, In field (keys d) <-> In field (_output_fields self1)) /\
    (forall field image,
       dict_get entry field = Some image ->
       dict_get d field = Some (data_shape (get_data image))) /\
    shapes (set_shapes self1 (Some d)) = (Ok d, set_shapes self1 (Some d)).
Proof.
  intros Hinit Hmemo.
  destruct (initialise_reader_entry_fields _ _ _ _ Hinit)
    as [vl [Hol [Hne [_ [Hsome [Hsh [_ Hentries]]]]]]].
  destruct vl as [|entry rest]; [congruence|].
  destruct (Hentries entry (or_introl eq_refl)) as [_ Hkeys].
  destruct (sample_comp (fun image => Ok (data_shape (get_data image)))
              entry (_output_fields self1)) as [d [Hd [Hk [Hget Hdne]]]].
  { intros field Hin. apply Hkeys; exact Hin. }
  { intros field image _. eauto. }
  exists d, entry, rest. split; [exact Hol|].
  assert (Hfirst : shapes self1 = (Ok d, set_shapes self1 (Some d))).
  { unfold shapes. rewrite Hol, Hsh.
    destruct (_shapes self) as [[|x xs]|]; simpl in Hmemo; try discriminate;
      rewrite Hd; reflexivity. }
  split; [exact Hfirst|]. split; [exact Hk|]. split.
  - intros field image Himage.
    assert (Hin : In field (_output_fields self1)).
    { apply Hkeys. apply dict_get_keys. eauto. }
    destruct (Hget field image Hin Himage) as [w [Hw Hdw]].
    inversion Hw; subst. exact Hdw.
  - unfold shapes. unfold set_shapes at 1 2; simpl. rewrite Hol.
    specialize (Hdne Hsome). destruct d; [congruence|reflexivity].
Qed.

(** X16. Under the same conditions [dtypes] returns, provided every
    image of the first catalog entry reports at least one native code:
    a map with exactly the output fields as keys, each mapped to what
    [infer_tf_dtypes] gives for the first entry's image. *)
Theorem dtypes_after_initialise
        (data_param : dict ModalityParam) (task_param : dict pyval)
        (self self1 : ImageReader) (entry : dict Image)
        (rest : list (dict Image)) :
  initialise_reader data_param task_param self = (Ok tt, self1) ->
  truthy (_dtypes self) = false ->
  output_list self1 = Some (entry :: rest) ->
  (forall field image, dict_get entry field = Some image ->
                       image_dtype image <> []) ->
  exists d,
    dtypes self1 = (Ok d, set_dtypes self1 (Some d)) /\
    (forall field, In field (keys d) <-> In field (_output_fields self1)) /\
    (forall field image,
       dict_get entry field = Some image ->
       exists inferred, infer_tf_dtypes image = Ok inferred /\
                        dict_get d field = Some inferred).
Proof.
  intros Hinit Hmemo Hol Hcodes.
  destruct (initialise_reader_entry_fields _ _ _ _ Hinit)
    as [vl [Hol' [_ [_ [_ [_ [Hdt Hentries]]]]]]].
  assert (vl = entry :: rest) by congruence. subst vl.
  destruct (Hentries entry (or_introl eq_refl)) as [_ Hkeys].
  destruct (sample_comp infer_tf_dtypes entry (_output_fields self1))
    as [d [Hd [Hk [Hget _]]]].
  { intros field Hin. apply Hkeys; exact Hin. }
  { intros field image Himage. specialize (Hcodes _ _ Himage).
    unfold infer_tf_dtypes.
    destruct (py_set (image_dtype image)) as [|c [|c' cs]] eqn:Hset; simpl;
      eauto.
    exfalso. destruct (image_dtype image) as [|c l] eqn:Hl; [congruence|].
    assert (Hin : In c (py_set (c :: l))) by (apply py_set_In; simpl; auto).
    rewrite Hset in Hin. exact Hin. }
  exists d. split.
  { unfold dtypes. rewrite Hol, Hdt.
    destruct (_dtypes self) as [[|x xs]|]; simpl in Hmemo; try discriminate;
      rewrite Hd; reflexivity. }
  split; [exact Hk|].
  intros field image Himage. apply (Hget field image); [|exact Himage].
  apply Hkeys. apply dict_get_keys. eauto.
Qed.

(** X17. Maps memoised before an initialisation are what [shapes] and
    [dtypes] return after it: a successful initialisation does not reset
    them, whatever catalog it builds. *)
Theorem memo_survives_initialise
        (data_param : dict ModalityParam) (task_param : dict pyval)
        (self self1 : ImageReader) :
  initialise_reader data_param task_param self = (Ok tt, self1) ->
  (forall e d, _shapes self = Some (e :: d) ->
               shapes self1 = (Ok (e :: d), self1)) /\
  (forall e d, _dtypes self = Some (e :: d) ->
               dtypes self1 = (Ok (e :: d), self1)).
Proof.
  intros Hinit.
  destruct (initialise_reader_entry_fields _ _ _ _ Hinit)
    as [vl [Hol [Hne [_ [_ [Hsh [Hdt _]]]]]]].
  destruct vl as [|entry rest]; [congruence|]. split.
  - intros e d Hmemo. unfold shapes. rewrite Hol, Hsh, Hmemo. reflexivity.
  - intros e d Hmemo. unfold dtypes. rewrite Hol, Hdt, Hmemo. reflexivity.
Qed.

(** X18. The inferred element type depends only on which native codes a
    sample reports, not on their order or repetition; the inference
    fails, with the KeyError of popping an empty set, exactly when the
    sample reports no code at all. *)
Theorem infer_tf_dtypes_codes (image1 image2 : Image) :
  (image_dtype image1 = [] <-> infer_tf_dtypes image1 = raise KeyError) /\
  (image_dtype image1 <> [] -> exists t, infer_tf_dtypes image1 = Ok t) /\
  ((forall d, In d (image_dtype image1) <-> In d (image_dtype image2)) ->
   infer_tf_dtypes image1 = infer_tf_dtypes image2).
Proof.
  assert (Hnil : forall l, py_set l = [] <-> l = []).
  { intros l. split; [|intros ->; reflexivity].
    destruct l as [|c l]; [reflexivity|]. intros Hset.
    assert (Hin : In c (py_set (c :: l))) by (apply py_set_In; simpl; auto).
    rewrite Hset in Hin. contradiction. }
  split; [|split].
  - rewrite <- Hnil. unfold infer_tf_dtypes.
    destruct (py_set (image_dtype image1)) as [|c [|c' cs]]; simpl;
      split; intros H; try reflexivity; discriminate.
  - intros Hne. rewrite <- Hnil in Hne. unfold infer_tf_dtypes.
    destruct (py_set (image_dtype image1)) as [|c [|c' cs]]; simpl; eauto.
    congruence.
  - intros Hsame.
    assert (Hset : forall d, In d (py_set (image_dtype image1)) <->
                             In d (py_set (image_dtype image2))).
    { intros d. rewrite !py_set_In. apply Hsame. }
    assert (Hlen : length (py_set (image_dtype image1)) =
                   length (py_set (image_dtype image2))).
    { apply Nat.le_antisymm; apply NoDup_incl_length;
        try apply py_set_NoDup; intros d Hd; apply Hset; exact Hd. }
    unfold infer_tf_dtypes. rewrite Hlen.
    destruct (py_set (image_dtype image1)) as [|c1 [|c1' cs1]],
             (py_set (image_dtype image2)) as [|c2 [|c2' cs2]];
      simpl in Hlen; try discriminate; try reflexivity.
    simpl. assert (c1 = c2).
    { destruct (proj1 (Hset c1) (or_introl eq_refl)) as [Heq|[]]. auto. }
    subst. reflexivity.
Qed.

(** X19. On a reader that was constructed and not initialised,
    [shapes], [dtypes] and [input_sources] fail with the
    reader-not-initialised condition and [layer_op] fails with a
    TypeError in either mode; none of them changes the reader, which
    holds the output fields it was constructed with. *)
Theorem not_initialised (fields : list string) (rnd : Z) (shuffle : bool) :
  _output_fields (ImageReader_init fields) = fields /\
  shapes (ImageReader_init fields)
    = (Err ReaderNotInitialized, ImageReader_init fields) /\
  dtypes (ImageReader_init fields)
    = (Err ReaderNotInitialized, ImageReader_init fields) /\
  input_sources (ImageReader_init fields) = Err ReaderNotInitialized /\
  layer_op rnd shuffle (ImageReader_init fields)
    = (raise TypeError, ImageReader_init fields).
Proof.
  unfold ImageReader_init, set_output_fields; simpl.
  rewrite make_input_tuple_seq.
  repeat split. destruct shuffle; reflexivity.
Qed.

(** X20. Whatever the state of the reader and the outcome of the call,
    [layer_op] writes nothing but the cursor: a shuffled call leaves the
    cursor too, and a sequential call on a reader with a cursor moves it
    by one, also when the call then fails for want of a catalog. *)
Theorem layer_op_writes_cursor_only
        (self : ImageReader) (rnd : Z) (shuffle : bool) :
  set_current_id (snd (layer_op rnd shuffle self)) (current_id self) = self /\
  (shuffle = true ->
   current_id (snd (layer_op rnd shuffle self)) = current_id self) /\
  (shuffle = false ->
   forall current,
     current_id self = Some current ->
     current_id (snd (layer_op rnd shuffle self)) = Some (current + 1)%Z) /\
  (shuffle = false -> current_id self = None ->
   layer_op rnd shuffle self = (raise TypeError, self)).
Proof.
  split; [apply layer_op_only_cursor|]. split; [|split].
  - intros ->. rewrite layer_op_shuffle_frame. reflexivity.
  - intros -> current Hcur. apply layer_op_sequential_cursor; exact Hcur.
  - intros -> Hcur. unfold layer_op, select, bind, get, lift, ret.
    rewrite Hcur. reflexivity.
Qed.

End AccessMore.

(** * The definitions and the statements at work on the sample
      configuration *)

Import Sample.

Example merge_two_modalities : _load_and_merge_csv_files data_AB = Ok merged_AB.
Proof. reflexivity. Qed.

Example merge_one_modality :
  _load_and_merge_csv_files data_A =
  Ok {| subject_id_dtype := object_key;
        columns := ["A"]; rows := [("s1", ["a1.img"]); ("s2", ["a2.img"])] |}.
Proof. reflexivity. Qed.

Example merge_no_modality :
  _load_and_merge_csv_files [] = raise AttributeError.
Proof. reflexivity. Qed.

(** A manifest that lists a subject twice gives the subject two rows. *)
Example merge_repeated_subject :
  _load_and_merge_csv_files data_AD =
  Ok {| subject_id_dtype := object_key;
        columns := ["A"; "D"];
        rows := [("s1", ["a1.img"; "d1.img"]); ("s1", ["a1.img"; "d1bis.img"])] |}.
Proof. reflexivity. Qed.

(** Subjects repeated on both sides: every pairing gets a row. *)
Example merge_repeated_both_sides :
  _load_and_merge_csv_files data_DD =
  Ok {| subject_id_dtype := object_key;
        columns := ["D"; "E"];
        rows := [("s1", ["d1.img"; "d1.img"]); ("s1", ["d1.img"; "d1bis.img"]);
                 ("s1", ["d1bis.img"; "d1.img"]);
                 ("s1", ["d1bis.img"; "d1bis.img"])] |}.
Proof. reflexivity. Qed.

(** The rows of a join come key by key: the second left row of [s1]
    comes before the row of [s2]. *)
Example join_groups_repeated_keys :
  join_rows [("s1", ["a"]); ("s2", ["b"]); ("s1", ["c"])]
            [("s2", ["y"]); ("s1", ["x"])]
  = [("s1", ["a"; "x"]); ("s1", ["c"; "x"]); ("s2", ["b"; "y"])].
Proof. reflexivity. Qed.

(** Numbered subjects against named ones: pandas refuses the merge, and
    does so before a later manifest is found missing. *)
Example merge_mistyped_keys :
  _load_and_merge_csv_files data_AN = raise ValueError /\
  _load_and_merge_csv_files data_ANZ = raise ValueError.
Proof. split; reflexivity. Qed.

(** Two element types that differ in byte order only are two codes. *)
Example infer_mixed_byte_order :
  int16 <> int16_swapped /\
  kind int16 = kind int16_swapped /\
  infer_tf_dtypes (["a1.img"; "d1.img"] : Image) = Ok (Some tf_float32).
Proof. repeat split; try reflexivity. discriminate. Qed.

Example initialise_segmentation :
  initialise_reader data_AB task_seg fresh =
  (Ok tt,
   mkImageReader
     (Some merged_AB) ["image"; "label"]
     (Some [("image", PTuple ["A"; "B"]); ("label", PTuple ["A"])])
     None None
     (Some [[("image", ["a1.img"; "b1.img"]); ("label", ["a1.img"])]])
     (Some (-1)%Z)).
Proof. reflexivity. Qed.

(** With every field bound to the empty tuple the catalog build stops on
    the [input_sources] property and no catalog is stored. *)
Example initialise_no_field :
  fst (initialise_reader data_AB task_no_field fresh) = Err ReaderNotInitialized /\
  output_list (snd (initialise_reader data_AB task_no_field fresh)) = None.
Proof. split; reflexivity. Qed.

Example initialise_unknown_modality :
  fst (initialise_reader data_AB task_unknown_modality fresh)
    = Err UnknownModality /\
  output_list (snd (initialise_reader data_AB task_unknown_modality fresh))
    = None.
Proof. split; reflexivity. Qed.

Example shapes_and_dtypes :
  fst (shapes reader_AB) = Ok [("image", [2]); ("label", [1])] /\
  fst (dtypes reader_AB) =
    Ok [("image", Some tf_float32); ("label", Some tf_int32)].
Proof. split; reflexivity. Qed.

Lemma _load_and_merge_csv_files_join_witness :
  exists df,
    _load_and_merge_csv_files data_AB = Ok df /\
    subject_ids df = ["s1"] /\
    df_loc df 0 "B" = Ok "b1.img".
Proof.
  destruct (_load_and_merge_csv_files_join data_AB)
    as [df [Hdf [Hcols [Hids [Hnd [Hin Hloc]]]]]].
  - intros m [<-|[<-|[]]]; eexists; vm_compute; reflexivity.
  - intros m [<-|[<-|[]]]; vm_compute;
      repeat constructor; simpl; intuition discriminate.
  - intros m m' [<-|[<-|[]]] [<-|[<-|[]]]; reflexivity.
  - vm_compute. discriminate.
  - exists df. split; [exact Hdf|]. split; [exact Hids|].
    assert (Heq : df = merged_AB).
    { vm_compute in Hdf. inversion Hdf; reflexivity. }
    rewrite Heq. reflexivity.
Defined.

(** C1, as stated, does not hold: the manifests [A.csv] and [D.csv] have
    the one subject [s1] in common, and the merged table has two rows for
    it, one per path [D.csv] lists for [s1]. *)
Lemma _load_and_merge_csv_files_join_counterexample :
  common_subject_ids (map (manifest_of data_AD) (keys data_AD)) = ["s1"] /\
  (forall s, (forall m, In m (keys data_AD) ->
                        In s (map fst (manifest_of data_AD m))) <-> s = "s1") /\
  manifest_of data_AD "D" = [("s1", "d1.img"); ("s1", "d1bis.img")] /\
  exists df,
    _load_and_merge_csv_files data_AD = Ok df /\
    subject_ids df = ["s1"; "s1"] /\
    n_rows df = 2 /\
    df_loc df 0 "D" = Ok "d1.img" /\
    df_loc df 1 "D" = Ok "d1bis.img".
Proof.
  split; [reflexivity|]. split; [|split; [reflexivity|]].
  - intros s. split.
    + intros Hall. specialize (Hall "D" (or_intror (or_introl eq_refl))).
      vm_compute in Hall. destruct Hall as [H|[H|[]]]; congruence.
    + intros -> m [<-|[<-|[]]]; vm_compute; auto.
  - exists merged_AD. repeat split; reflexivity.
Qed.



Lemma layer_op_sequential_order_witness :
  layer_op 7 false reader_AB =
    (Ok (Some 0%Z, Some [("image", ["a1.img"; "b1.img"]);
                         ("label", ["a1.img"])]),
     set_current_id reader_AB (Some 0%Z)) /\
  layer_op 7 false (after_sequential_calls [3%Z] reader_AB) =
    (Ok (None, None), set_current_id reader_AB (Some 1%Z)).
Proof.
  assert (Hinit : initialise_reader data_AB task_seg fresh = (Ok tt, reader_AB))
    by (vm_compute; reflexivity).
  assert (Hol : output_list reader_AB =
                Some [[("image", ["a1.img"; "b1.img"]); ("label", ["a1.img"])]])
    by (vm_compute; reflexivity).
  split.
  - destruct (layer_op_sequential_order data_AB task_seg fresh reader_AB
                _ [] 7%Z Hinit Hol) as [_ [_ [Hcall _]]].
    exact Hcall.
  - destruct (layer_op_sequential_order data_AB task_seg fresh reader_AB
                _ [3%Z] 7%Z Hinit Hol) as [_ [_ [Hcall _]]].
    exact Hcall.
Defined.

(** C3, as stated, does not hold: a reader asked for ['image'] is
    initialised without complaint for an application the module does
    not know. *)
Lemma initialise_reader_unsupported_application_counterexample :
  dict_get task_other "name" = Some (PStr "net_regression.py") /\
  supported_input (PStr "net_regression.py") = None /\
  fst (initialise_reader data_AB task_other fresh_image) = Ok tt /\
  fst (initialise_reader data_AB task_other fresh_image)
    <> Err UnsupportedApplication.
Proof.
  split; [reflexivity|]. split; [reflexivity|].
  split; [vm_compute; reflexivity|]. vm_compute. discriminate.
Qed.

Lemma initialise_reader_unsupported_application_witness :
  fst (initialise_reader data_AB task_other fresh) = Err UnsupportedApplication.
Proof.
  rewrite (initialise_reader_unsupported_application
             data_AB task_other fresh (PStr "net_regression.py"));
    reflexivity.
Defined.

Lemma _filename_to_image_list_unknown_modality_witness :
  _create_image reader_T1 0 (PTuple ["A"; "T1"]) data_AB = Err UnknownModality /\
  _filename_to_image_list reader_T1 data_AB = Err UnknownModality.
Proof.
  destruct (_filename_to_image_list_unknown_modality
              reader_T1 data_AB merged_AB
              [("image", PTuple ["A"]); ("label", PTuple ["A"; "T1"])]
              "label" (PTuple ["A"; "T1"]) "T1") as [Hcreate Hbuild];
    try (vm_compute; reflexivity).
  - simpl; auto.
  - split; [apply Hcreate|exact Hbuild].
Defined.

Lemma infer_tf_dtypes_promotion_witness :
  infer_tf_dtypes (["a1.img"; "b1.img"] : Image) = Ok (Some tf_float32) /\
  infer_tf_dtypes (["a1.img"; "a2.img"] : Image) = Ok (Some tf_int32).
Proof.
  split.
  - apply (proj1 (infer_tf_dtypes_promotion _)).
    exists int16, float32. simpl. repeat split; auto. discriminate.
  - destruct (proj2 (@infer_tf_dtypes_promotion sample_types sample_external
                       ["a1.img"; "a2.img"]) int16)
      as [_ [Hint _]].
    + discriminate.
    + simpl. intros a [<-|[<-|[]]]; reflexivity.
    + apply Hint. left; reflexivity.
Defined.

(** C7, as stated, does not hold: asked for ['image'] only, the reader
    leaves out ['label'], which the segmentation application supports
    and the specification binds to a modality. *)
Lemma initialise_reader_fields_counterexample :
  fst (initialise_reader data_AB task_seg fresh_image) = Ok tt /\
  In "label" SUPPORTED_INPUT_segmentation /\
  dict_get task_seg "label" = Some (PTuple ["A"]) /\
  ~ In "label" (_output_fields (snd (initialise_reader data_AB task_seg fresh_image))).
Proof.
  split; [vm_compute; reflexivity|]. split; [simpl; auto|].
  split; [reflexivity|]. vm_compute. intros [H|[]]. discriminate.
Qed.

Lemma initialise_reader_fields_witness :
  In "image" (_output_fields reader_AB) /\
  ~ In "weight" (_output_fields reader_AB) /\
  input_sources reader_AB =
    Ok [("image", PTuple ["A"; "B"]); ("label", PTuple ["A"])].
Proof.
  destruct (initialise_reader_fields data_AB task_seg fresh reader_AB)
    as [app [cands [srcs [Hname [Hcands [Hfields [Hnd [Hsrc [Hkeys Hvals]]]]]]]]].
  - vm_compute; reflexivity.
  - split; [vm_compute; auto|]. split; [|vm_compute; reflexivity].
    intros Hin. apply Hfields in Hin.
    destruct Hin as [_ [v [Hv Hne]]]. vm_compute in Hv.
    inversion Hv; subst. apply Hne; reflexivity.
Defined.

Lemma layer_op_shuffle_stateless_witness :
  exists idx entry,
    (0 <= idx < 1)%Z /\
    layer_op 5 true reader_AB =
    (Ok (Some idx, Some (image_data_dict entry)), reader_AB).
Proof.
  destruct (proj2 (proj2 (layer_op_shuffle_stateless reader_AB 5%Z)))
    as [vl [idx [entry [Hol [Hr [_ Hcall]]]]]].
  - apply (initialised_by data_AB task_seg fresh). vm_compute; reflexivity.
  - exists idx, entry. split; [|exact Hcall].
    vm_compute in Hol. inversion Hol; subst. exact Hr.
Defined.

Lemma layer_op_no_field_witness :
  initialise_reader data_AB task_no_field fresh =
    (Err ReaderNotInitialized,
     mkImageReader (Some merged_AB) [] (Some []) None None None None) /\
  fst (layer_op 3 true (snd (initialise_reader data_AB task_no_field fresh)))
    = raise TypeError /\
  (exists idx entry,
     layer_op 3 true (snd (initialise_reader data_AB task_no_field reader_AB))
     = (Ok (Some idx, Some (image_data_dict entry)),
        snd (initialise_reader data_AB task_no_field reader_AB)) /\
     image_data_dict entry <> []).
Proof.
  pose proof (layer_op_no_field data_AB task_no_field fresh
                (PStr "net_segmentation.py") merged_AB
                SUPPORTED_INPUT_segmentation
                eq_refl eq_refl eq_refl eq_refl) as Hfresh.
  pose proof (layer_op_no_field data_AB task_no_field reader_AB
                (PStr "net_segmentation.py") merged_AB
                ["image"; "label"]
                eq_refl eq_refl eq_refl eq_refl) as Hagain.
  cbv zeta in Hfresh, Hagain.
  destruct Hfresh as [Hinit [Hnever _]].
  destruct Hagain as [Hinit' [_ [Hold _]]].
  split; [exact Hinit|]. split.
  - rewrite Hinit. apply Hnever; reflexivity.
  - assert (Hready : initialised reader_AB).
    { apply (initialised_by data_AB task_seg fresh). vm_compute; reflexivity. }
    destruct (Hold Hready 3%Z)
      as [vl [idx [entry [_ [_ [_ [Hdata Hcall]]]]]]].
    exists idx, entry. rewrite Hinit'. split; [exact Hcall|exact Hdata].
Defined.

(** C9, as stated, does not hold.  With every field bound to the empty
    tuple the resolved field set is empty, and a call of [layer_op] does
    not return the pair (None, None): on a reader initialised for the
    first time it raises a type error in either mode, and on a reader
    that had a catalog a shuffled call returns the index and the data of
    an entry of that catalog. *)
Lemma layer_op_no_field_counterexample :
  _output_fields (snd (initialise_reader data_AB task_no_field fresh)) = [] /\
  fst (layer_op 3 true (snd (initialise_reader data_AB task_no_field fresh)))
    = raise TypeError /\
  fst (layer_op 3 false (snd (initialise_reader data_AB task_no_field fresh)))
    = raise TypeError /\
  _output_fields (snd (initialise_reader data_AB task_no_field reader_AB)) = [] /\
  fst (layer_op 3 true
         (snd (initialise_reader data_AB task_no_field reader_AB)))
    = Ok (Some 0%Z, Some [("image", ["a1.img"; "b1.img"]);
                          ("label", ["a1.img"])]).
Proof. repeat split; reflexivity. Qed.

Lemma infer_tf_dtypes_unmapped_kind_witness :
  infer_tf_dtypes (["x"] : Image) = Ok None /\
  exists dmap,
    fst (dtypes reader_C) = Ok dmap /\ dict_get dmap "image" = Some None.
Proof.
  destruct (@infer_tf_dtypes_unmapped_kind sample_types sample_external
              ["x"] complex64)
    as [Hinfer Hmap]; try discriminate.
  - simpl. intros a [<-|[]]; reflexivity.
  - split; [exact Hinfer|].
    exists [("image", None)]. split; [vm_compute; reflexivity|].
    apply (Hmap reader_C [("image", ["x"])] [] "image"
                [("image", None)] (snd (dtypes reader_C)));
      try (vm_compute; reflexivity).
    vm_compute; auto.
Defined.

Lemma _load_and_merge_csv_files_sound_witness :
  columns merged_AB = keys data_AB /\ rows merged_AB <> [] /\
  (In "s1" (subject_ids merged_AB) <->
   forall m, In m (keys data_AB) -> In "s1" (map fst (manifest_of data_AB m))).
Proof.
  destruct (_load_and_merge_csv_files_sound data_AB merged_AB)
    as [Hc [Hr [_ [Hin _]]]]; [reflexivity|].
  split; [exact Hc|]. split; [exact Hr|]. apply Hin.
Defined.

Lemma _load_and_merge_csv_files_succeeds_iff_witness :
  exists df, _load_and_merge_csv_files data_AB = Ok df.
Proof.
  apply (proj2 (_load_and_merge_csv_files_succeeds_iff data_AB)).
  split; [discriminate|]. split; [|split].
  - intros m [<-|[<-|[]]]; eexists; vm_compute; reflexivity.
  - intros m m' [<-|[<-|[]]] [<-|[<-|[]]]; reflexivity.
  - exists "s1". intros m [<-|[<-|[]]]; vm_compute; auto.
Defined.


Lemma _load_and_merge_csv_files_row_counts_witness :
  count_occ string_dec (subject_ids merged_AD) "s1" = 2 /\
  count_occ string_dec (subject_ids merged_AD) "s2" = 0.
Proof.
  split.
  - destruct (_load_and_merge_csv_files_row_counts data_AD merged_AD "s1")
      as [Hcount _]; [reflexivity|].
    rewrite Hcount. reflexivity.
  - destruct (_load_and_merge_csv_files_row_counts data_AD merged_AD "s2")
      as [_ [_ Hnone]]; [reflexivity|].
    apply Hnone. exists "D". split; [simpl; auto|reflexivity].
Defined.

Lemma _load_and_merge_csv_files_order_witness :
  exists df',
    _load_and_merge_csv_files data_BA = Ok df' /\
    Permutation (columns merged_AB) (columns df') /\
    n_rows merged_AB = n_rows df'.
Proof.
  destruct (_load_and_merge_csv_files_order data_AB data_BA merged_AB)
    as [df' [Hdf' [Hcols [_ Hrows]]]].
  - unfold well_formed_dict. simpl.
    repeat constructor; simpl; intuition discriminate.
  - apply perm_swap.
  - reflexivity.
  - exists df'. auto.
Defined.

Lemma _create_image_descriptor_witness :
  exists paths sections,
    _create_image reader_AB 0 (PTuple ["A"; "B"]) data_AB =
    Ok (create_instance
          {| ip_file_path := paths;
             ip_name := PTuple ["A"; "B"];
             ip_interp_order := map interp_order sections;
             ip_output_pixdim := map pixdim sections;
             ip_output_axcodes := map axcodes sections |}) /\
    length paths = 2 /\ length sections = 2.
Proof.
  destruct (_create_image_descriptor reader_AB data_AB merged_AB 0
              "s1" ["a1.img"; "b1.img"] (PTuple ["A"; "B"]))
    as [paths [sections [Hc [Hlp [Hls _]]]]];
    [reflexivity|reflexivity|reflexivity| |].
  - simpl. intros m [<-|[<-|[]]]; auto.
  - exists paths, sections. auto.
Defined.

Lemma _create_image_row_bounds_witness :
  _create_image reader_AB 5 (PTuple ["A"]) data_AB = Err UnknownModality /\
  _create_image reader_AB 5 (PTuple []) data_AB = Ok [].
Proof.
  split.
  - apply (proj1 (_create_image_row_bounds reader_AB data_AB 5 (PTuple ["A"]))
                 merged_AB).
    + reflexivity.
    + vm_compute. lia.
    + discriminate.
  - rewrite (proj2 (_create_image_row_bounds reader_AB data_AB 5 (PTuple []))
                   eq_refl).
    reflexivity.
Defined.

Lemma initialise_reader_succeeds_iff_witness :
  exists self', initialise_reader data_AB task_seg fresh = (Ok tt, self').
Proof.
  apply (proj2 (initialise_reader_succeeds_iff data_AB task_seg fresh)).
  exists (PStr "net_segmentation.py"), merged_AB,
         ["image"; "label"; "weight"; "sampler"].
  split; [reflexivity|]. split; [reflexivity|]. split; [reflexivity|].
  split; [vm_compute; discriminate|].
  intros field modalities m Hfield Hget Hm.
  vm_compute in Hfield. destruct Hfield as [<-|[<-|[]]];
    vm_compute in Hget; inversion Hget; subst; simpl in Hm; simpl; tauto.
Defined.

Lemma initialise_reader_catalog_entries_witness :
  exists volume_list entry paths,
    output_list reader_AD = Some volume_list /\
    length volume_list = n_rows merged_AD /\
    nth_error volume_list 1 = Some entry /\
    dict_get entry "image" =
      Some (create_instance
              {| ip_file_path := paths;
                 ip_name := PTuple ["A"; "D"];
                 ip_interp_order := [3%Z; 3%Z];
                 ip_output_pixdim := [[1; 1; 1]; [1; 1; 1]];
                 ip_output_axcodes := ["RAS"; "RAS"] |}) /\
    Forall2 (fun m p => df_loc merged_AD 1 m = Ok p) ["A"; "D"] paths.
Proof.
  destruct (initialise_reader_catalog_entries data_AD task_AD fresh reader_AD)
    as [fl [sources [vl [Hmerge [_ [Hsrc [Hol [Hlen Hrows]]]]]]]];
    [reflexivity|].
  assert (Hfl : fl = merged_AD)
    by (vm_compute in Hmerge; inversion Hmerge; reflexivity).
  subst fl.
  assert (Hsources : sources = [("image", PTuple ["A"; "D"])])
    by (vm_compute in Hsrc; inversion Hsrc; reflexivity).
  subst sources.
  destruct (Hrows 1 "s1" ["a1.img"; "d1bis.img"] eq_refl)
    as [entry [Hnth [_ Hfield]]].
  destruct (Hfield "image" (PTuple ["A"; "D"]) eq_refl)
    as [paths [sections [Hget [Hpaths Hsections]]]].
  exists vl, entry, paths.
  split; [exact Hol|]. split; [exact Hlen|]. split; [exact Hnth|]. split.
  - rewrite Hget. simpl in Hsections.
    inversion Hsections as [|? s1 ? l1 H1 Hrest]; subst.
    inversion Hrest as [|? s2 ? l2 H2 Hnil]; subst.
    inversion Hnil; subst.
    vm_compute in H1, H2. inversion H1; inversion H2; subst. reflexivity.
  - simpl in Hpaths. clear - Hpaths.
    induction Hpaths; constructor; tauto.
Defined.

Lemma initialise_reader_frame_witness :
  output_list (snd (initialise_reader data_AB task_unknown_modality reader_AB))
    = output_list reader_AB /\
  current_id (snd (initialise_reader data_AB task_unknown_modality reader_AB))
    = current_id reader_AB.
Proof.
  destruct (initialise_reader_frame data_AB task_unknown_modality reader_AB)
    as [_ [_ [Herr _]]].
  apply (Herr UnknownModality). reflexivity.
Defined.

Lemma initialise_reader_again_witness :
  initialise_reader data_AB task_seg
    (after_calls [(1%Z, false); (2%Z, true); (3%Z, false)] reader_AB)
  = (Ok tt, reader_AB).
Proof.
  apply (initialise_reader_again data_AB task_seg fresh reader_AB).
  reflexivity.
Defined.

Lemma initialise_reader_fields_shrink_witness :
  incl (_output_fields (snd (initialise_reader data_AB task_seg fresh_image)))
       ["image"].
Proof.
  destruct (initialise_reader_fields_shrink data_AB task_seg fresh_image
              (snd (initialise_reader data_AB task_seg fresh_image)))
    as [Hincl _].
  - discriminate.
  - reflexivity.
  - exact Hincl.
Defined.

Lemma layer_op_interleaved_witness :
  layer_op 9 false (after_calls [(4%Z, true); (5%Z, true)] reader_AB) =
    (Ok (Some 0%Z, Some (image_data_dict entry_AB)),
     set_current_id reader_AB (Some 0%Z)) /\
  layer_op 9 false (after_calls [(4%Z, true); (5%Z, false)] reader_AB) =
    (Ok (None, None), set_current_id reader_AB (Some 1%Z)).
Proof.
  split.
  - destruct (layer_op_interleaved data_AB task_seg fresh reader_AB
                [entry_AB] [(4%Z, true); (5%Z, true)] 9%Z)
      as [_ Hcall]; [reflexivity|reflexivity|]. exact Hcall.
  - destruct (layer_op_interleaved data_AB task_seg fresh reader_AB
                [entry_AB] [(4%Z, true); (5%Z, false)] 9%Z)
      as [_ Hcall]; [reflexivity|reflexivity|]. exact Hcall.
Defined.

Lemma layer_op_bundle_fields_witness :
  (In "label" (keys (image_data_dict entry_AB)) <->
   In "label" (_output_fields reader_AB)) /\
  (In "weight" (keys (image_data_dict entry_AB)) <->
   In "weight" (_output_fields reader_AB)).
Proof.
  destruct (layer_op_bundle_fields (after_calls [(4%Z, true)] reader_AB)
              7%Z true 0%Z (image_data_dict entry_AB))
    as [vl [entry [_ [_ [_ [_ [_ Hfields]]]]]]].
  - apply after_calls_initialised.
    apply (initialised_by data_AB task_seg fresh). vm_compute; reflexivity.
  - reflexivity.
  - split;
      apply (Hfields data_AB task_seg fresh reader_AB [(4%Z, true)]);
      reflexivity.
Defined.

Lemma shapes_after_initialise_witness :
  exists d,
    shapes reader_AB = (Ok d, set_shapes reader_AB (Some d)) /\
    dict_get d "image" = Some [2].
Proof.
  destruct (shapes_after_initialise data_AB task_seg fresh reader_AB)
    as [d [entry [rest [Hol [Hfirst [_ [Hget _]]]]]]];
    [reflexivity|reflexivity|].
  exists d. split; [exact Hfirst|].
  vm_compute in Hol. inversion Hol; subst entry rest.
  apply (Hget "image" ["a1.img"; "b1.img"]). reflexivity.
Defined.

Lemma dtypes_after_initialise_witness :
  exists d,
    dtypes reader_AB = (Ok d, set_dtypes reader_AB (Some d)) /\
    forall field, In field (keys d) <-> In field (_output_fields reader_AB).
Proof.
  destruct (dtypes_after_initialise data_AB task_seg fresh reader_AB
              entry_AB []) as [d [Hfirst [Hkeys _]]];
    [reflexivity|reflexivity|reflexivity| |].
  - intros field image Hget. apply dict_get_In in Hget.
    destruct Hget as [Heq|[Heq|[]]]; inversion Heq; subst; discriminate.
  - exists d. auto.
Defined.

Lemma memo_survives_initialise_witness :
  output_list reader_memo_C = Some [[("image", ["x"])]] /\
  dtypes reader_memo_C =
    (Ok [("image", Some tf_float32); ("label", Some tf_int32)], reader_memo_C).
Proof.
  split; [reflexivity|].
  destruct (memo_survives_initialise data_C task_C reader_memo reader_memo_C)
    as [_ Hd]; [reflexivity|].
  apply Hd. reflexivity.
Defined.

Lemma infer_tf_dtypes_codes_witness :
  infer_tf_dtypes (["a1.img"; "b1.img"] : Image)
  = infer_tf_dtypes (["b1.img"; "a2.img"; "a1.img"; "b3.img"] : Image).
Proof.
  apply (proj2 (proj2 (@infer_tf_dtypes_codes sample_types sample_external
                         ["a1.img"; "b1.img"]
                         ["b1.img"; "a2.img"; "a1.img"; "b3.img"]))).
  intros d. simpl. tauto.
Defined.

Lemma layer_op_writes_cursor_only_witness :
  current_id (snd (layer_op 3 true reader_AB)) = Some (-1)%Z /\
  current_id (snd (layer_op 3 false (ImageReader_init ["image"]))) = None /\
  current_id (snd (layer_op 3 false reader_AB)) = Some 0%Z.
Proof.
  split; [|split].
  - destruct (layer_op_writes_cursor_only reader_AB 3%Z true)
      as [_ [Hshuffle _]].
    rewrite Hshuffle; reflexivity.
  - destruct (layer_op_writes_cursor_only (ImageReader_init ["image"])
                3%Z false) as [_ [_ [_ Hnone]]].
    rewrite Hnone; reflexivity.
  - destruct (layer_op_writes_cursor_only reader_AB 3%Z false)
      as [_ [_ [Hseq _]]].
    apply (Hseq eq_refl (-1)%Z). reflexivity.
Defined.
